(** * StreamDingo: the documentation link validator (scripts/validate_links.py)

    A shallow embedding of the link validator and the proofs of the
    properties its specification states about it.

    A Python [str] is a sequence of Unicode code points; it is modelled as a
    list of code points.  The file system, the working directory and the
    network are the environment of a run; what a run does to them (calls of
    [os.path.exists], HTTP requests, lines printed, ...) is recorded in a
    trace, so that "no request is issued" or "no existence check is made"
    are statements about that trace. *)

From Stdlib Require Import List String Ascii ZArith NArith Lia Bool DecimalString.
Set Warnings "-register-all".
Import ListNotations.
Local Open Scope string_scope.
Local Open Scope list_scope.

(** ** Python strings *)

Definition char := N.
Definition str := list char.

Definition chr (a : ascii) : char := N_of_ascii a.

(** A string literal of the source (all of them are ASCII, except one mark
    in the report). *)
Definition lit (s : string) : str := map N_of_ascii (list_ascii_of_string s).

Module Str.

Fixpoint eqb (s t : str) : bool :=
  match s, t with
  | [], [] => true
  | c :: s', d :: t' => N.eqb c d && eqb s' t'
  | _, _ => false
  end.

(** [s.startswith(prefix)] *)
Fixpoint startswith (s prefix : str) : bool :=
  match prefix, s with
  | [], _ => true
  | p :: prefix', c :: s' => N.eqb c p && startswith s' prefix'
  | _ :: _, [] => false
  end.

(** [s.endswith(suffix)] *)
Definition endswith (s suffix : str) : bool :=
  startswith (rev s) (rev suffix).

(** [s.split(sep)] for a separator of one character: the pieces between
    the occurrences of [sep]; never the empty list. *)
Fixpoint split (sep : char) (s : str) : list str :=
  match s with
  | [] => [[]]
  | c :: s' =>
      if N.eqb c sep then [] :: split sep s'
      else match split sep s' with
           | piece :: pieces => (c :: piece) :: pieces
           | [] => [[c]]
           end
  end.

(** [sep.join(pieces)] *)
Fixpoint join (sep : str) (pieces : list str) : str :=
  match pieces with
  | [] => []
  | [piece] => piece
  | piece :: pieces' => piece ++ sep ++ join sep pieces'
  end.

Fixpoint dropwhile (p : char -> bool) (s : str) : str :=
  match s with
  | [] => []
  | c :: s' => if p c then dropwhile p s' else s
  end.

Definition lstrip_by (p : char -> bool) (s : str) : str := dropwhile p s.
Definition rstrip_by (p : char -> bool) (s : str) : str :=
  rev (dropwhile p (rev s)).

(** [s.lstrip(c)] and [s.rstrip(c)] for a set of one character *)
Definition lstrip (c : char) (s : str) : str := lstrip_by (N.eqb c) s.
Definition rstrip (c : char) (s : str) : str := rstrip_by (N.eqb c) s.

(** [str.isspace] of one character (CPython's [Py_UNICODE_ISSPACE]); the
    same set is the regular expression class [\s] of a [str] pattern. *)
Definition isspace (c : char) : bool :=
  ((9 <=? c) && (c <=? 13) || (28 <=? c) && (c <=? 32)
   || (c =? 133) || (c =? 160) || (c =? 5760)
   || (8192 <=? c) && (c <=? 8202)
   || (c =? 8232) || (c =? 8233) || (c =? 8239) || (c =? 8287)
   || (c =? 12288))%N.

(** [s.strip()] *)
Definition strip (s : str) : str := rstrip_by isspace (lstrip_by isspace s).

(** [s.rfind(c)]: the index of the last occurrence of [c], [-1] if none. *)
Fixpoint rfind_from (i : Z) (c : char) (s : str) : Z :=
  match s with
  | [] => (-1)%Z
  | x :: s' =>
      let r := rfind_from (i + 1) c s' in
      if (0 <=? r)%Z then r else if N.eqb x c then i else (-1)%Z
  end.
Definition rfind (c : char) (s : str) : Z := rfind_from 0 c s.

(** [str(n)] of an [int] *)
Definition of_Z (z : Z) : str := lit (NilZero.string_of_int (Z.to_int z)).
Definition of_nat (n : nat) : str := of_Z (Z.of_nat n).

End Str.

Definition newline : char := 10%N.

(** ** posixpath *)

Module posixpath.

Definition sep : char := chr "/".

(** [os.path.join(a, b)] *)
Definition join (a b : str) : str :=
  if Str.startswith b [sep] then b
  else if (match a with [] => true | _ => false end) || Str.endswith a [sep]
       then a ++ b
       else a ++ [sep] ++ b.

(** [os.path.dirname(p)] *)
Definition dirname (p : str) : str :=
  let i := (Str.rfind sep p + 1)%Z in
  let head := firstn (Z.to_nat i) p in
  if negb (Str.eqb head []) && negb (forallb (N.eqb sep) head)
  then Str.rstrip sep head
  else head.

Definition isabs (p : str) : bool := Str.startswith p [sep].

(** The loop of [normpath] over the components, [new_comps] kept in
    reverse (its last element first). *)
Fixpoint normpath_comps (initial_slashes : nat) (comps : list str)
         (new_comps : list str) : list str :=
  match comps with
  | [] => rev new_comps
  | comp :: comps' =>
      if Str.eqb comp [] || Str.eqb comp (lit ".") then
        normpath_comps initial_slashes comps' new_comps
      else if negb (Str.eqb comp (lit ".."))
              || (Nat.eqb initial_slashes 0
                  && match new_comps with [] => true | _ => false end)
              || match new_comps with
                 | last :: _ => Str.eqb last (lit "..")
                 | [] => false
                 end
      then normpath_comps initial_slashes comps' (comp :: new_comps)
      else match new_comps with
           | _ :: popped => normpath_comps initial_slashes comps' popped
           | [] => normpath_comps initial_slashes comps' new_comps
           end
  end.

(** [os.path.normpath(path)] *)
Definition normpath (path : str) : str :=
  match path with
  | [] => lit "."
  | _ =>
      let initial_slashes :=
        if Str.startswith path [sep] then
          if Str.startswith path [sep; sep]
             && negb (Str.startswith path [sep; sep; sep])
          then 2 else 1
        else 0 in
      let comps := normpath_comps initial_slashes (Str.split sep path) [] in
      let path' := repeat sep initial_slashes ++ Str.join [sep] comps in
      match path' with
      | [] => lit "."
      | _ => path'
      end
  end.

(** [os.path.abspath(path)], with the current directory [os.getcwd()]. *)
Definition abspath (getcwd : str) (path : str) : str :=
  if isabs path then normpath path else normpath (join getcwd path).

End posixpath.

(** ** The environment of a run *)

(** The file system is a tree of directories and files (no symbolic links).
    A file whose content is [None] cannot be read as UTF-8 text: [open] or
    [read] raises on it. *)
Inductive node :=
| File (content : option str)
| Dir (entries : list (str * node)).

Inductive method := HEAD | GET.

(** The exceptions of [requests] the validator tells apart, by the [except]
    clause that catches them: [Timeout] stands for [requests.Timeout] and its
    subclasses (among them [ConnectTimeout], which is also a
    [ConnectionError] but meets the [Timeout] clause first),
    [ConnectionError] for the other connection errors, [RequestException]
    for every other exception of the library, with its [str(e)].
    [OtherException] stands for an exception that is no
    [requests.RequestException] (urllib3's [LocationParseError] on a
    malformed host name, for one): no clause catches it. *)
Inductive request_exception :=
| Timeout
| ConnectionError
| RequestException (description : str)
| OtherException.

(** What [session.head] or [session.get] does: it returns a response, of
    which only [status_code] is read, or raises. *)
Inductive response :=
| Status (status_code : Z)
| Raise (e : request_exception).

Inductive event :=
| Print (line : str)
| Walk (top : str)
| Open (path : str)
| PathExists (path : str)
| PathIsdir (path : str)
| Request (m : method) (url : str)
| Sleep.

(** The answer of the network to a request may depend on everything that
    happened before it. *)
Record world := {
  root : node;
  getcwd : str;
  net : list event -> method -> str -> response
}.

Module FS.

Fixpoint find_entry (name : str) (entries : list (str * node)) : option node :=
  match entries with
  | [] => None
  | (n, child) :: entries' =>
      if Str.eqb n name then Some child else find_entry name entries'
  end.

(** Path resolution by the operating system, component by component;
    [stack] is the node reached, followed by its ancestors up to the
    root.  Every component, also an empty one or [.], is looked up in a
    directory. *)
Fixpoint resolve (stack : list node) (comps : list str) : option (list node) :=
  match comps with
  | [] => Some stack
  | comp :: comps' =>
      match stack with
      | Dir entries :: up =>
          if Str.eqb comp [] || Str.eqb comp (lit ".") then resolve stack comps'
          else if Str.eqb comp (lit "..") then
            resolve (match up with [] => stack | _ => up end) comps'
          else match find_entry comp entries with
               | Some child => resolve (child :: stack) comps'
               | None => None
               end
      | _ => None
      end
  end.

(** [os.stat(path)]: the node [path] names, [None] for [OSError]. *)
Definition lookup (w : world) (path : str) : option node :=
  match path with
  | [] => None
  | _ =>
      let absolute :=
        if posixpath.isabs path then path
        else getcwd w ++ [posixpath.sep] ++ path in
      match resolve [root w] (Str.split posixpath.sep absolute) with
      | Some (n :: _) => Some n
      | _ => None
      end
  end.

Definition exists_ (w : world) (path : str) : bool :=
  match lookup w path with Some _ => true | None => false end.

Definition isdir (w : world) (path : str) : bool :=
  match lookup w path with Some (Dir _) => true | _ => false end.

Definition dirnames (entries : list (str * node)) : list str :=
  map fst (filter (fun e => match snd e with Dir _ => true | File _ => false end) entries).

Definition filenames (entries : list (str * node)) : list str :=
  map fst (filter (fun e => match snd e with Dir _ => false | File _ => true end) entries).

(** [os.walk] below [top], top-down: for every directory its path, the
    names of its sub-directories and the names of its other entries, then
    the same for each sub-directory.  [os.scandir] raises on what is not a
    directory, and [os.walk] ignores that error: nothing is yielded. *)
Fixpoint walk_node (top : str) (n : node) {struct n}
  : list (str * list str * list str) :=
  match n with
  | File _ => []
  | Dir entries =>
      (top, dirnames entries, filenames entries)
      :: (fix subdirs (es : list (str * node)) :=
            match es with
            | [] => []
            | (name, child) :: es' =>
                match child with
                | Dir _ => walk_node (posixpath.join top name) child
                | File _ => []
                end ++ subdirs es'
            end) entries
  end.

Definition walk (w : world) (top : str) : list (str * list str * list str) :=
  match lookup w top with
  | Some n => walk_node top n
  | None => []
  end.

(** [open(path, 'r', encoding='utf-8').read()], [None] when it raises. *)
Definition read (w : world) (path : str) : option str :=
  match lookup w path with
  | Some (File content) => content
  | _ => None
  end.

End FS.

(** ** Computations: a trace of events, and exceptions that propagate *)

Definition M (A : Type) : Type := world -> list event -> option A * list event.

Definition ret {A} (a : A) : M A := fun _ tr => (Some a, tr).

Definition bind {A B} (m : M A) (k : A -> M B) : M B :=
  fun w tr =>
    match m w tr with
    | (Some a, tr') => k a w tr'
    | (None, tr') => (None, tr')
    end.

Notation "x <- m ;; k" := (bind m (fun x => k))
  (at level 61, m at next level, right associativity).
Notation "' pat <- m ;; k" := (bind m (fun x => match x with pat => k end))
  (at level 61, pat pattern, m at next level, right associativity).
Notation "m ;;; k" := (bind m (fun _ => k))
  (at level 61, right associativity).

Definition emit (e : event) : M unit := fun _ tr => (Some tt, tr ++ [e]).

(** [print(line)]; the standard output is taken to accept every line. *)
Definition print (line : str) : M unit := emit (Print line).

Definition time_sleep : M unit := emit Sleep.

Definition os_getcwd : M str := fun w tr => (Some (getcwd w), tr).

Definition os_path_abspath (path : str) : M str :=
  cwd <- os_getcwd ;; ret (posixpath.abspath cwd path).

Definition os_path_exists (path : str) : M bool :=
  fun w tr => (Some (FS.exists_ w path), tr ++ [PathExists path]).

Definition os_path_isdir (path : str) : M bool :=
  fun w tr => (Some (FS.isdir w path), tr ++ [PathIsdir path]).

Definition os_walk (top : str) : M (list (str * list str * list str)) :=
  fun w tr => (Some (FS.walk w top), tr ++ [Walk top]).

Definition read_text (path : str) : M str :=
  fun w tr => (FS.read w path, tr ++ [Open path]).

Definition session_request (m : method) (url : str) : M response :=
  fun w tr => (Some (net w tr m url), tr ++ [Request m url]).

(** [for x in xs: acc = body x acc] *)
Fixpoint for_each {A S} (xs : list A) (body : A -> S -> M S) (acc : S) : M S :=
  match xs with
  | [] => ret acc
  | x :: xs' => acc' <- body x acc ;; for_each xs' body acc'
  end.

(** ** Regular expressions: the backtracking matcher of [re]

    The fragment the two patterns of the validator are written in: literal
    characters, greedy repetitions of a character class, concatenation and
    capturing groups.  A greedy repetition first takes as many characters as
    it can and gives them back one by one while the rest of the pattern does
    not match. *)

Module Re.

Inductive regex :=
| Chr (c : char)
| Star (class : char -> bool)
| Plus (class : char -> bool)
| Cat (r1 r2 : regex)
| Group (r : regex).

Fixpoint greedy {R} (class : char -> bool) (s : str) (k : str -> option R)
  : option R :=
  match s with
  | c :: s' =>
      if class c then
        match greedy class s' k with
        | Some x => Some x
        | None => k s
        end
      else k s
  | [] => k s
  end.

(** [run r s groups k]: match [r] at the start of [s], then go on with [k]
    on the rest of [s] and the groups captured so far. *)
Fixpoint run {R} (r : regex) (s : str) (groups : list str)
         (k : str -> list str -> option R) : option R :=
  match r with
  | Chr c =>
      match s with
      | x :: s' => if N.eqb x c then k s' groups else None
      | [] => None
      end
  | Star class => greedy class s (fun rest => k rest groups)
  | Plus class =>
      match s with
      | x :: s' =>
          if class x then greedy class s' (fun rest => k rest groups) else None
      | [] => None
      end
  | Cat r1 r2 => run r1 s groups (fun rest groups' => run r2 rest groups' k)
  | Group r1 =>
      run r1 s groups
          (fun rest groups' =>
             k rest (groups' ++ [firstn (List.length s - List.length rest) s]))
  end.

(** The match of [r] that starts at the start of [s], if any: its groups
    and what follows it. *)
Definition match_at (r : regex) (s : str) : option (list str * str) :=
  run r s [] (fun rest groups => Some (groups, rest)).

(** The scan of [re.finditer]: the matches from left to right, none
    overlapping another, each with the text it covers ([group(0)]) and its
    groups; [skip] is the number of characters still covered by the last
    match. *)
Fixpoint scan (r : regex) (skip : nat) (s : str) : list (str * list str) :=
  match s with
  | [] =>
      match skip, match_at r [] with
      | O, Some (groups, _) => [([], groups)]
      | _, _ => []
      end
  | _ :: s' =>
      match skip with
      | S n => scan r n s'
      | O =>
          match match_at r s with
          | Some (groups, rest) =>
              (firstn (List.length s - List.length rest) s, groups)
              :: scan r (List.length s - List.length rest - 1) s'
          | None => scan r 0 s'
          end
      end
  end.

Definition finditer (r : regex) (s : str) : list (str * list str) :=
  scan r 0 s.

Definition pair_of_groups (groups : list str) : str * str :=
  match groups with
  | g1 :: g2 :: _ => (g1, g2)
  | _ => ([], [])
  end.

(** [re.findall(r, s)] for a pattern with two groups: the pairs of the
    groups of the matches. *)
Definition findall (r : regex) (s : str) : list (str * str) :=
  map (fun m => pair_of_groups (snd m)) (finditer r s).

(** What a pattern stands for: [denotes r text groups] when [r] can match
    the whole of [text], capturing [groups]. *)
Fixpoint denotes (r : regex) (text : str) (groups : list str) : Prop :=
  match r with
  | Chr c => text = [c] /\ groups = []
  | Star class => forallb class text = true /\ groups = []
  | Plus class => text <> [] /\ forallb class text = true /\ groups = []
  | Cat r1 r2 =>
      exists text1 text2 groups1 groups2,
        text = text1 ++ text2 /\ groups = groups1 ++ groups2
        /\ denotes r1 text1 groups1 /\ denotes r2 text2 groups2
  | Group r1 =>
      exists groups1, groups = groups1 ++ [text] /\ denotes r1 text groups1
  end.

End Re.

Notation "r1 +++ r2" := (Re.Cat r1 r2) (at level 60, right associativity).

Definition is_not (a : ascii) (c : char) : bool := negb (N.eqb c (chr a)).

(** [.] without [re.DOTALL]: any character but the newline *)
Definition dot (c : char) : bool := negb (N.eqb c newline).

(** The pattern of the inline links, its parts set apart:
    [\[  ( [^\]]* )  \]  \(  ( [^)]+ )  \)] *)
Definition markdown_link_re : Re.regex :=
  Re.Chr (chr "[") +++ Re.Group (Re.Star (is_not "]")) +++ Re.Chr (chr "]")
  +++ Re.Chr (chr "(") +++ Re.Group (Re.Plus (is_not ")")) +++ Re.Chr (chr ")").

(** The pattern of the reference definitions, its parts set apart:
    [\[  ( [^\]]+ )  \]  :  \s*  ( .+ )] *)
Definition ref_link_re : Re.regex :=
  Re.Chr (chr "[") +++ Re.Group (Re.Plus (is_not "]")) +++ Re.Chr (chr "]")
  +++ Re.Chr (chr ":") +++ Re.Star Str.isspace +++ Re.Group (Re.Plus dot).

(** ** The validator *)

Inductive link_type := markdown | reference.

(** The dictionary [extract_links] makes of a link ([line] is always
    [None]). *)
Record Link := {
  link_text : str;
  link_url : str;
  link_line : option nat;
  link_type_ : link_type
}.

Inductive broken_type := external | local.

(** The dictionary [validate_links] appends to [broken_links]. *)
Record Broken := {
  broken_file : str;
  broken_url : str;
  broken_text : str;
  broken_reason : str;
  broken_type_ : broken_type
}.

Definition find_markdown_files (directory : str) : M (list str) :=
  walked <- os_walk directory ;;
  ret (flat_map
         (fun '(root, dirs, files) =>
            map (posixpath.join root)
                (filter (fun file => Str.endswith file (lit ".md")) files))
         walked).

(** The two passes of [extract_links] over the content of a file. *)
Definition markdown_links (content : str) : list Link :=
  map (fun '(text, url) =>
         {| link_text := text; link_url := url; link_line := None;
            link_type_ := markdown |})
      (Re.findall markdown_link_re content).

Definition ref_links (content : str) : list Link :=
  map (fun '(ref, url) =>
         {| link_text := ref; link_url := Str.strip url; link_line := None;
            link_type_ := reference |})
      (Re.findall ref_link_re content).

Definition extract_links (file_path : str) : M (list Link) :=
  content <- read_text file_path ;;
  ret (markdown_links content ++ ref_links content).

Definition validate_local_link (link_url base_path docs_root : str)
  : M (bool * str) :=
  let clean_url := hd [] (Str.split (chr "#") link_url) in
  match clean_url with
  | [] => ret (true, lit "Fragment only")
  | _ =>
      let full_path :=
        if Str.startswith clean_url (lit "/") then
          posixpath.join docs_root (Str.lstrip (chr "/") clean_url)
        else
          posixpath.join (posixpath.dirname base_path) clean_url in
      full_path <- os_path_abspath full_path ;;
      found <- os_path_exists full_path ;;
      if found then ret (true, lit "File exists")
      else
        is_dir <- os_path_isdir full_path ;;
        if is_dir then
          let index_path := posixpath.join full_path (lit "index.md") in
          index_found <- os_path_exists index_path ;;
          if index_found then ret (true, lit "Directory with index.md")
          else ret (false, lit "File not found: " ++ full_path)
        else ret (false, lit "File not found: " ++ full_path)
  end.

(** The three [except] clauses of [validate_external_link]: what the
    clause that catches [e] returns, [None] when no clause catches it. *)
Definition on_request_exception (e : request_exception) : option (bool * str) :=
  match e with
  | Timeout => Some (false, lit "Timeout")
  | ConnectionError => Some (false, lit "Connection error")
  | RequestException description =>
      Some (false, lit "Request error: " ++ description)
  | OtherException => None
  end.

(** The end of the [try] statement on an exception: the result of the
    clause that catches it, or the exception goes on to the caller. *)
Definition except_clauses (e : request_exception) : M (bool * str) :=
  fun _ tr => (on_request_exception e, tr).

(** The session is the one of the run: its requests go to the network of
    the environment. *)
Definition validate_external_link (url : str) : M (bool * str) :=
  head <- session_request HEAD url ;;
  match head with
  | Status status_code =>
      if (status_code <? 400)%Z then
        ret (true, lit "HTTP " ++ Str.of_Z status_code)
      else
        get <- session_request GET url ;;
        match get with
        | Status status_code =>
            if (status_code <? 400)%Z then
              ret (true, lit "HTTP " ++ Str.of_Z status_code ++ lit " (GET)")
            else
              ret (false, lit "HTTP " ++ Str.of_Z status_code)
        | Raise e => except_clauses e
        end
  | Raise e => except_clauses e
  end.

(** The body of the loop over the links of a file (lines 131 to 169). *)
Definition check_link (docs_directory : str) (check_external : bool)
           (file_path : str) (link : Link) (broken_links : list Broken)
  : M (list Broken) :=
  let url := Str.strip (link_url link) in
  match url with
  | [] => ret broken_links
  | _ =>
      if Str.startswith url (lit "mailto:") then ret broken_links
      else if Str.startswith url (lit "javascript:") then ret broken_links
      else if Str.startswith url (lit "http://")
              || Str.startswith url (lit "https://") then
        if check_external then
          '(is_valid, reason) <- validate_external_link url ;;
          let broken_links :=
            if negb is_valid then
              broken_links ++
                [{| broken_file := file_path; broken_url := url;
                    broken_text := link_text link; broken_reason := reason;
                    broken_type_ := external |}]
            else broken_links in
          time_sleep ;;;
          ret broken_links
        else ret broken_links
      else
        '(is_valid, reason) <- validate_local_link url file_path docs_directory ;;
        if negb is_valid then
          ret (broken_links ++
                 [{| broken_file := file_path; broken_url := url;
                     broken_text := link_text link; broken_reason := reason;
                     broken_type_ := local |}])
        else ret broken_links
  end.

(** The body of the loop over the files (lines 125 to 169), on the pair of
    [total_links] and [broken_links]. *)
Definition check_file (docs_directory : str) (check_external : bool)
           (file_path : str) (state : nat * list Broken)
  : M (nat * list Broken) :=
  let '(total_links, broken_links) := state in
  print (lit "Checking " ++ file_path ++ lit "...") ;;;
  links <- extract_links file_path ;;
  let total_links := total_links + List.length links in
  broken_links <-
    for_each links (check_link docs_directory check_external file_path)
             broken_links ;;
  ret (total_links, broken_links).

(** The first part of [validate_links] (lines 112 to 169): what
    [total_links] and [broken_links] are when the loop over the files is
    over.  The session made at line 119 only carries a [User-Agent] header;
    its requests are the requests of the run. *)
Definition check_files (docs_directory : str) (check_external : bool)
  : M (nat * list Broken) :=
  markdown_files <- find_markdown_files docs_directory ;;
  print (lit "Found " ++ Str.of_nat (List.length markdown_files)
         ++ lit " markdown files to check") ;;;
  for_each markdown_files (check_file docs_directory check_external) (0, []).

Definition type_name (t : broken_type) : str :=
  match t with external => lit "external" | local => lit "local" end.

(** The mark that starts the lines of the report, as the source has it. *)
Definition mark : str := [226; 338]%N.

(** The second part of [validate_links] (lines 171 to 186). *)
Definition report (total_links : nat) (broken_links : list Broken) : M bool :=
  print (newline :: lit "=== Link Validation Results ===") ;;;
  print (lit "Total links checked: " ++ Str.of_nat total_links) ;;;
  print (lit "Broken links found: " ++ Str.of_nat (List.length broken_links)) ;;;
  match broken_links with
  | [] => ret tt
  | _ =>
      print (newline :: lit "=== Broken Links ===") ;;;
      for_each broken_links
        (fun broken _ =>
           print (mark ++ lit " " ++ broken_file broken) ;;;
           print (lit "   Link: " ++ broken_url broken) ;;;
           print (lit "   Text: '" ++ broken_text broken ++ lit "'") ;;;
           print (lit "   Error: " ++ broken_reason broken) ;;;
           print (lit "   Type: " ++ type_name (broken_type_ broken)) ;;;
           print [])
        tt
  end ;;;
  ret (Nat.eqb (List.length broken_links) 0).

Definition validate_links (docs_directory : str) (check_external : bool)
  : M bool :=
  '(total_links, broken_links) <- check_files docs_directory check_external ;;
  report total_links broken_links.

(** [main], with the two command line arguments parsed. *)
Definition main (docs_dir : str) (skip_external : bool) : M Z :=
  found <- os_path_exists docs_dir ;;
  if negb found then
    print (lit "Error: Directory '" ++ docs_dir ++ lit "' does not exist") ;;;
    ret 1%Z
  else
    let check_external := negb skip_external in
    success <- validate_links docs_dir check_external ;;
    ret (if success then 0%Z else 1%Z).

(** ** Notions the properties are stated with *)

(** The part of a local target before its first [#] ([clean_url], line 60). *)
Definition before_fragment (link_url : str) : str :=
  hd [] (Str.split (chr "#") link_url).

(** Whether a target, its fragment removed, is written from the
    documentation root (line 66). *)
Definition root_relative (link_url : str) : bool :=
  Str.startswith (before_fragment link_url) (lit "/").

(** The value of [full_path] at line 73, for a target that is not only a
    fragment. *)
Definition resolved_path (cwd link_url base_path docs_root : str) : option str :=
  match before_fragment link_url with
  | [] => None
  | clean_url =>
      Some (posixpath.abspath cwd
              (if Str.startswith clean_url (lit "/") then
                 posixpath.join docs_root (Str.lstrip (chr "/") clean_url)
               else
                 posixpath.join (posixpath.dirname base_path) clean_url))
  end.

(** The targets [validate_links] passes over (lines 134 to 143): empty once
    trimmed, or starting with [mailto:] or [javascript:]. *)
Definition skipped (url : str) : bool :=
  match Str.strip url with
  | [] => true
  | trimmed =>
      Str.startswith trimmed (lit "mailto:")
      || Str.startswith trimmed (lit "javascript:")
  end.

(** The paths [find_markdown_files] returns. *)
Definition markdown_files_of (w : world) (directory : str) : list str :=
  flat_map
    (fun '(root, dirs, files) =>
       map (posixpath.join root)
           (filter (fun file => Str.endswith file (lit ".md")) files))
    (FS.walk w directory).

(** The links [extract_links] returns for a file, [None] when reading the
    file raises. *)
Definition links_of (w : world) (file_path : str) : option (list Link) :=
  match FS.read w file_path with
  | Some content => Some (markdown_links content ++ ref_links content)
  | None => None
  end.

(** The reading of the reference definitions by which a target never lies
    past the end of the line its match starts on: no match of the pattern
    holds a newline. *)
Definition target_on_line_of_match (content : str) : Prop :=
  forall m, In m (Re.finditer ref_link_re content) ->
            forallb dot (fst m) = true.

(** The number of links [extract_links] finds in the files. *)
Definition count_links (w : world) (files : list str) : nat :=
  list_sum
    (map (fun file =>
            match links_of w file with
            | Some links => List.length links
            | None => 0
            end)
         files).

(** An entry of [broken_links] that stands for a check that was made: it
    carries the file, the trimmed target and the text of a link extracted
    from a markdown file of the run, the target is not one that is passed
    over, and the reason is the one a call of the validator of its type
    returned with an invalid outcome. *)
Definition backed_by_check (w : world) (docs_directory : str)
           (check_external : bool) (b : Broken) : Prop :=
  In (broken_file b) (markdown_files_of w docs_directory)
  /\ exists links link tr0 tr1,
      links_of w (broken_file b) = Some links
      /\ In link links
      /\ skipped (link_url link) = false
      /\ broken_url b = Str.strip (link_url link)
      /\ broken_text b = link_text link
      /\ (broken_type_ b = external
          /\ check_external = true
          /\ validate_external_link (broken_url b) w tr0
             = (Some (false, broken_reason b), tr1)
          \/ broken_type_ b = local
             /\ validate_local_link (broken_url b) (broken_file b)
                                    docs_directory w tr0
                = (Some (false, broken_reason b), tr1)).




Definition is_network (e : event) : bool :=
  match e with Request _ _ | Sleep => true | _ => false end.





(** The reading of the exit status by which the path given must be a
    directory for [main] to return 0. *)
Definition exit_0_iff_directory (w : world) (docs_dir : str)
           (skip_external : bool) (tr : list event) : Prop :=
  fst (main docs_dir skip_external w tr) = Some 0%Z
  <-> FS.isdir w docs_dir = true
      /\ exists total_links tr1,
           check_files docs_dir (negb skip_external) w
                       (tr ++ [PathExists docs_dir])
           = (Some (total_links, []), tr1).

(** The targets [validate_links] takes for external (line 146). *)
Definition is_external (url : str) : bool :=
  Str.startswith (Str.strip url) (lit "http://")
  || Str.startswith (Str.strip url) (lit "https://").

Definition is_filesystem (e : event) : bool :=
  match e with PathExists _ | PathIsdir _ => true | _ => false end.

(** ** A small documentation tree, for the examples

    [/docs] holds [a.md], an empty directory [sub], a directory [guide]
    with an [index.md], and [api/b.md]; the working directory is
    [/home/u]. *)

Definition a_md : str :=
  lit "[x](sub/) [y](/api/b.md) [z](api/b.md#k) [m](mailto:a@b.c) [n](nope.md)".

Definition docs_tree : node :=
  Dir [ (lit "docs",
         Dir [ (lit "a.md", File (Some a_md));
               (lit "sub", Dir []);
               (lit "guide", Dir [ (lit "index.md", File (Some [])) ]);
               (lit "notes.txt", File (Some (lit "[q](zz)")));
               (lit "api", Dir [ (lit "b.md", File (Some (lit "[r]: #top"))) ]) ]);
        (lit "home", Dir [ (lit "u", Dir []) ]) ].

(** A network on which every [HEAD] is answered 500 and every [GET] 200. *)
Definition head_rejecting_net (tr : list event) (m : method) (url : str)
  : response :=
  match m with HEAD => Status 500 | GET => Status 200 end.

Definition docs_world : world :=
  {| root := docs_tree; getcwd := lit "/home/u"; net := head_rejecting_net |}.

(** A network on which every request times out. *)
Definition timing_out_world : world :=
  {| root := docs_tree; getcwd := lit "/home/u";
     net := fun _ _ _ => Raise Timeout |}.

(** A network on which every request is answered 200. *)
Definition answering_world : world :=
  {| root := docs_tree; getcwd := lit "/home/u";
     net := fun _ _ _ => Status 200 |}.

(** The lines of the report (lines 172 to 184). *)
Definition report_lines (total_links : nat) (broken_links : list Broken)
  : list str :=
  [newline :: lit "=== Link Validation Results ===";
   lit "Total links checked: " ++ Str.of_nat total_links;
   lit "Broken links found: " ++ Str.of_nat (List.length broken_links)]
  ++ match broken_links with
     | [] => []
     | _ =>
         (newline :: lit "=== Broken Links ===")
         :: flat_map
              (fun broken =>
                 [mark ++ lit " " ++ broken_file broken;
                  lit "   Link: " ++ broken_url broken;
                  lit "   Text: '" ++ broken_text broken ++ lit "'";
                  lit "   Error: " ++ broken_reason broken;
                  lit "   Type: " ++ type_name (broken_type_ broken);
                  []])
              broken_links
     end.

(** * Properties *)

(** ** The library functions on examples *)

Example dirname_ex :
  posixpath.dirname (lit "/docs/guide/a.md") = lit "/docs/guide"
  /\ posixpath.dirname (lit "a.md") = lit ""
  /\ posixpath.dirname (lit "/a.md") = lit "/".
Proof. repeat split; reflexivity. Qed.

Example abspath_ex :
  posixpath.abspath (lit "/home/u") (lit "docs/guide/../api/./b.md")
  = lit "/home/u/docs/api/b.md"
  /\ posixpath.abspath (lit "/home/u") (lit "/docs//x/") = lit "/docs/x"
  /\ posixpath.abspath (lit "/home/u") (lit "//docs/../..") = lit "//".
Proof. repeat split; reflexivity. Qed.

Example findall_ex :
  Re.findall markdown_link_re (lit "x [a](u) [b]() [c](d e) [[q](z)")
  = [(lit "a", lit "u"); (lit "c", lit "d e"); (lit "[q", lit "z")]
  /\ Re.findall ref_link_re (lit "see [a]: http://x.y  " ++ newline :: lit "[b]:  ")
     = [(lit "a", lit "http://x.y  "); (lit "b", lit " ")].
Proof. split; reflexivity. Qed.

Example walk_ex :
  markdown_files_of docs_world (lit "/docs")
  = [lit "/docs/a.md"; lit "/docs/guide/index.md"; lit "/docs/api/b.md"].
Proof. reflexivity. Qed.

(** ** Local links *)

Lemma isdir_exists (w : world) (path : str) :
  FS.isdir w path = true -> FS.exists_ w path = true.
Proof.
  unfold FS.isdir, FS.exists_.
  destruct (FS.lookup w path) as [n|]; [reflexivity | discriminate].
Qed.

(** [validate_local_link] on a target that is not only a fragment, in terms
    of the path it resolves to. *)
Lemma validate_local_link_resolved
      (link_url base_path docs_root full_path : str) (w : world)
      (tr : list event) :
  resolved_path (getcwd w) link_url base_path docs_root = Some full_path ->
  validate_local_link link_url base_path docs_root w tr
  = if FS.exists_ w full_path then
      (Some (true, lit "File exists"), tr ++ [PathExists full_path])
    else
      (Some (false, lit "File not found: " ++ full_path),
       tr ++ [PathExists full_path] ++ [PathIsdir full_path]).
Proof.
  unfold resolved_path, validate_local_link, before_fragment.
  destruct (hd [] (Str.split (chr "#") link_url)) as [|c clean] eqn:Hclean;
    [discriminate |].
  intros [= <-].
  cbv beta iota zeta
      delta [bind os_path_abspath os_getcwd os_path_exists os_path_isdir ret].
  set (p := posixpath.abspath _ _).
  destruct (FS.exists_ w p) eqn:Hex; [reflexivity |].
  destruct (FS.isdir w p) eqn:Hdir.
  - apply isdir_exists in Hdir. congruence.
  - now rewrite <- app_assoc.
Qed.

Lemma validate_local_link_fragment
      (link_url base_path docs_root : str) (w : world) (tr : list event) :
  resolved_path (getcwd w) link_url base_path docs_root = None ->
  validate_local_link link_url base_path docs_root w tr
  = (Some (true, lit "Fragment only"), tr).
Proof.
  unfold resolved_path, validate_local_link, before_fragment.
  destruct (hd [] (Str.split (chr "#") link_url)); [reflexivity | discriminate].
Qed.

(** C7. A target that is empty before its first [#] is valid, with the
    reason "Fragment only", whatever the file system holds, and the
    validation makes no call to the file system: the trace is left as it
    was. *)
Theorem fragment_only_valid
        (link_url base_path docs_root : str) (w : world) (tr : list event) :
  before_fragment link_url = [] ->
  validate_local_link link_url base_path docs_root w tr
  = (Some (true, lit "Fragment only"), tr).
Proof.
  intros H. apply validate_local_link_fragment.
  unfold resolved_path. now rewrite H.
Qed.

Lemma fragment_only_valid_witness :
  before_fragment (lit "#intro") = []
  /\ validate_local_link (lit "#intro") (lit "/docs/a.md") (lit "/docs")
                         docs_world []
     = (Some (true, lit "Fragment only"), []).
Proof.
  split; [reflexivity |].
  apply (fragment_only_valid (lit "#intro")). reflexivity.
Defined.

(** C2. A local target whose resolved path exists, be it a file or a
    directory, is valid with the reason "File exists"; and no call of
    [validate_local_link] gives the reason "Directory with index.md". *)
Theorem existing_path_file_exists
        (link_url base_path docs_root : str) (w : world) (tr : list event) :
  (forall full_path n,
      resolved_path (getcwd w) link_url base_path docs_root = Some full_path ->
      FS.lookup w full_path = Some n ->
      validate_local_link link_url base_path docs_root w tr
      = (Some (true, lit "File exists"), tr ++ [PathExists full_path]))
  /\ (forall is_valid reason tr',
         validate_local_link link_url base_path docs_root w tr
         = (Some (is_valid, reason), tr') ->
         reason <> lit "Directory with index.md").
Proof.
  split.
  - intros full_path n Hres Hn.
    rewrite (validate_local_link_resolved _ _ _ _ _ _ Hres).
    unfold FS.exists_. now rewrite Hn.
  - intros is_valid reason tr'.
    destruct (resolved_path (getcwd w) link_url base_path docs_root)
      as [full_path|] eqn:Hres.
    + rewrite (validate_local_link_resolved _ _ _ _ _ _ Hres).
      destruct (FS.exists_ w full_path); intros [= <- <- <-]; discriminate.
    + rewrite (validate_local_link_fragment _ _ _ _ _ Hres).
      intros [= <- <- <-]; discriminate.
Qed.

Lemma existing_path_file_exists_witness :
  validate_local_link (lit "guide/") (lit "/docs/a.md") (lit "/docs")
                      docs_world []
  = (Some (true, lit "File exists"), [PathExists (lit "/docs/guide")]).
Proof.
  apply (proj1 (existing_path_file_exists (lit "guide/") (lit "/docs/a.md")
                                          (lit "/docs") docs_world [])
               (lit "/docs/guide")
               (Dir [ (lit "index.md", File (Some [])) ]));
    reflexivity.
Defined.

(** C1, as the code has it: a target that resolves to a directory is valid
    with the reason "File exists" whether the directory holds an [index.md]
    or not.  [/docs/sub] is an empty directory, [/docs/guide] holds an
    [index.md]. *)
Theorem directory_without_index_valid :
  FS.isdir docs_world (lit "/docs/sub") = true
  /\ FS.exists_ docs_world (lit "/docs/sub/index.md") = false
  /\ validate_local_link (lit "sub/") (lit "/docs/a.md") (lit "/docs")
                         docs_world []
     = (Some (true, lit "File exists"), [PathExists (lit "/docs/sub")])
  /\ FS.exists_ docs_world (lit "/docs/guide/index.md") = true
  /\ validate_local_link (lit "guide/") (lit "/docs/a.md") (lit "/docs")
                         docs_world []
     = (Some (true, lit "File exists"), [PathExists (lit "/docs/guide")]).
Proof. repeat split; reflexivity. Qed.

(** C6. A target written from the documentation root and a target written
    from the directory of the document, when they resolve to the same
    existing file, are both valid. *)
Theorem root_and_relative_forms_valid
        (from_root relative base_path docs_root full_path : str)
        (content : option str) (w : world) (tr1 tr2 : list event) :
  root_relative from_root = true ->
  root_relative relative = false ->
  resolved_path (getcwd w) from_root base_path docs_root = Some full_path ->
  resolved_path (getcwd w) relative base_path docs_root = Some full_path ->
  FS.lookup w full_path = Some (File content) ->
  fst (validate_local_link from_root base_path docs_root w tr1)
  = Some (true, lit "File exists")
  /\ fst (validate_local_link relative base_path docs_root w tr2)
     = Some (true, lit "File exists").
Proof.
  intros _ _ Hroot Hrel Hfile.
  rewrite (validate_local_link_resolved _ _ _ _ _ _ Hroot).
  rewrite (validate_local_link_resolved _ _ _ _ _ _ Hrel).
  unfold FS.exists_. rewrite Hfile. split; reflexivity.
Qed.

Lemma root_and_relative_forms_valid_witness :
  fst (validate_local_link (lit "/api/b.md") (lit "/docs/guide/index.md")
                           (lit "/docs") docs_world [])
  = Some (true, lit "File exists")
  /\ fst (validate_local_link (lit "../api/b.md#top") (lit "/docs/guide/index.md")
                              (lit "/docs") docs_world [])
     = Some (true, lit "File exists").
Proof.
  apply (root_and_relative_forms_valid
           (lit "/api/b.md") (lit "../api/b.md#top") (lit "/docs/guide/index.md")
           (lit "/docs") (lit "/docs/api/b.md") (Some (lit "[r]: #top")));
    reflexivity.
Defined.

(** ** External links *)

(** What [validate_external_link] does, by the answer to its [HEAD]
    request and, where one is made, to its [GET] request. *)
Lemma validate_external_link_cases (url : str) (w : world) (tr : list event) :
  validate_external_link url w tr
  = match net w tr HEAD url with
    | Status h =>
        if (h <? 400)%Z then
          (Some (true, lit "HTTP " ++ Str.of_Z h), tr ++ [Request HEAD url])
        else
          (match net w (tr ++ [Request HEAD url]) GET url with
           | Status g =>
               Some (if (g <? 400)%Z then
                       (true, lit "HTTP " ++ Str.of_Z g ++ lit " (GET)")
                     else (false, lit "HTTP " ++ Str.of_Z g))
           | Raise e => on_request_exception e
           end,
           tr ++ [Request HEAD url; Request GET url])
    | Raise e => (on_request_exception e, tr ++ [Request HEAD url])
    end.
Proof.
  cbv beta iota zeta
      delta [validate_external_link bind session_request ret except_clauses].
  destruct (net w tr HEAD url) as [h | e]; [| reflexivity].
  destruct (h <? 400)%Z; [reflexivity |].
  rewrite <- app_assoc. cbn [app].
  destruct (net w (tr ++ [Request HEAD url]) GET url) as [g | e];
    [destruct (g <? 400)%Z |]; reflexivity.
Qed.

(** C4. When the [HEAD] request times out the link is invalid with the
    reason "Timeout" and [HEAD] is the only request made; in every call, the
    requests made are the [HEAD] request alone, or the [HEAD] request and
    then a [GET] request, the latter exactly when [HEAD] was answered with a
    status of 400 or above. *)
Theorem head_timeout_no_get (url : str) (w : world) (tr : list event) :
  (net w tr HEAD url = Raise Timeout ->
   validate_external_link url w tr
   = (Some (false, lit "Timeout"), tr ++ [Request HEAD url]))
  /\ (snd (validate_external_link url w tr)
      = tr ++ [Request HEAD url; Request GET url]
      /\ (exists h, net w tr HEAD url = Status h /\ (400 <= h)%Z)
      \/ snd (validate_external_link url w tr) = tr ++ [Request HEAD url]
         /\ (forall h, net w tr HEAD url = Status h -> (h < 400)%Z)).
Proof.
  rewrite validate_external_link_cases. split.
  - intros ->. reflexivity.
  - destruct (net w tr HEAD url) as [h | e].
    + destruct (h <? 400)%Z eqn:Hh.
      * right. split; [reflexivity |]. intros h' [= <-]. lia.
      * left. split; [reflexivity |]. exists h. split; [reflexivity | lia].
    + right. split; [reflexivity |]. intros h' [=].
Qed.

Lemma head_timeout_no_get_witness :
  validate_external_link (lit "https://example.com/slow") timing_out_world []
  = (Some (false, lit "Timeout"),
     [Request HEAD (lit "https://example.com/slow")]).
Proof.
  apply (proj1 (head_timeout_no_get (lit "https://example.com/slow")
                                    timing_out_world [])).
  reflexivity.
Defined.

(** C5. When [HEAD] is answered with a status of 400 or above, the answer
    to the [GET] request decides: a status below 400 makes the link valid,
    with a reason that ends in "(GET)"; a status of 400 or above makes it
    invalid, with the reason "HTTP" and that status. *)
Theorem get_fallback_decides (url : str) (w : world) (tr : list event)
        (h g : Z) :
  net w tr HEAD url = Status h ->
  (400 <= h)%Z ->
  net w (tr ++ [Request HEAD url]) GET url = Status g ->
  ((g < 400)%Z ->
   fst (validate_external_link url w tr)
   = Some (true, lit "HTTP " ++ Str.of_Z g ++ lit " (GET)"))
  /\ ((400 <= g)%Z ->
      fst (validate_external_link url w tr)
      = Some (false, lit "HTTP " ++ Str.of_Z g)).
Proof.
  intros Hhead Hh Hget.
  rewrite validate_external_link_cases, Hhead.
  destruct (h <? 400)%Z eqn:Hlt; [lia |].
  cbn [fst]. rewrite Hget.
  split; intros Hg; destruct (g <? 400)%Z eqn:Hg'; (reflexivity || lia).
Qed.

Lemma get_fallback_decides_witness :
  fst (validate_external_link (lit "https://example.com/x") docs_world [])
  = Some (true, lit "HTTP 200 (GET)").
Proof.
  apply (proj1 (get_fallback_decides (lit "https://example.com/x") docs_world []
                                     500 200 eq_refl ltac:(lia) eq_refl)).
  lia.
Defined.

(** ** The run over the files *)

(** A property of the accumulator that every turn of a loop keeps holds
    when the loop is over. *)
Lemma for_each_invariant {A S} (P : S -> Prop) (xs : list A)
      (body : A -> S -> M S) (w : world) :
  (forall x acc tr acc' tr',
      In x xs -> P acc -> body x acc w tr = (Some acc', tr') -> P acc') ->
  forall acc tr acc' tr',
    P acc -> for_each xs body acc w tr = (Some acc', tr') -> P acc'.
Proof.
  induction xs as [|x xs IH]; intros Hbody acc tr acc' tr' Hacc.
  - intros [= <- <-]. exact Hacc.
  - cbn [for_each]. unfold bind.
    destruct (body x acc w tr) as [[acc1|] tr1] eqn:Hx; [| discriminate].
    apply IH.
    + intros y a t a' t' Hy. apply Hbody. now right.
    + apply (Hbody x acc tr acc1 tr1); [now left | exact Hacc | exact Hx].
Qed.

(** The report prints and returns: whether [broken_links] is empty. *)
Lemma report_returns (total_links : nat) (broken_links : list Broken)
      (w : world) (tr : list event) :
  exists tr',
    report total_links broken_links w tr
    = (Some (Nat.eqb (List.length broken_links) 0), tr').
Proof.
  unfold report.
  assert (Hloop : forall (bs : list Broken) tr0, exists tr1,
             for_each bs
               (fun broken (_ : unit) =>
                  print (mark ++ lit " " ++ broken_file broken) ;;;
                  print (lit "   Link: " ++ broken_url broken) ;;;
                  print (lit "   Text: '" ++ broken_text broken ++ lit "'") ;;;
                  print (lit "   Error: " ++ broken_reason broken) ;;;
                  print (lit "   Type: " ++ type_name (broken_type_ broken)) ;;;
                  print [])
               tt w tr0 = (Some tt, tr1)).
  { induction bs as [|b bs IH]; intros tr0.
    - exists tr0. reflexivity.
    - cbn [for_each].
      cbv beta iota zeta delta [bind print emit].
      apply IH. }
  destruct broken_links as [|b bs].
  - eexists. reflexivity.
  - cbv beta iota zeta delta [bind print emit ret].
    match goal with
    | |- context [for_each ?l ?f tt w ?t] =>
        destruct (Hloop l t) as [tr1 Htr1]
    end.
    cbv beta iota zeta delta [bind print emit] in Htr1.
    rewrite Htr1. eexists. reflexivity.
Qed.

Lemma report_no_links (w : world) (tr : list event) :
  report 0 [] w tr
  = (Some true,
     tr ++ [Print (newline :: lit "=== Link Validation Results ===");
            Print (lit "Total links checked: 0");
            Print (lit "Broken links found: 0")]).
Proof.
  cbv beta iota zeta delta [report bind print emit ret].
  repeat rewrite <- app_assoc. reflexivity.
Qed.

Lemma validate_links_cases (docs_directory : str) (check_external : bool)
      (w : world) (tr : list event) :
  validate_links docs_directory check_external w tr
  = match check_files docs_directory check_external w tr with
    | (Some (total_links, broken_links), tr1) =>
        report total_links broken_links w tr1
    | (None, tr1) => (None, tr1)
    end.
Proof.
  unfold validate_links, bind.
  destruct (check_files docs_directory check_external w tr) as [[[t b]|] tr1];
    reflexivity.
Qed.

Lemma main_cases (docs_dir : str) (skip_external : bool) (w : world)
      (tr : list event) :
  main docs_dir skip_external w tr
  = if FS.exists_ w docs_dir then
      match validate_links docs_dir (negb skip_external) w
                           (tr ++ [PathExists docs_dir]) with
      | (Some success, tr') => (Some (if success then 0%Z else 1%Z), tr')
      | (None, tr') => (None, tr')
      end
    else
      (Some 1%Z,
       tr ++ [PathExists docs_dir;
              Print (lit "Error: Directory '" ++ docs_dir
                     ++ lit "' does not exist")]).
Proof.
  cbv beta iota zeta delta [main bind os_path_exists print emit ret].
  destruct (FS.exists_ w docs_dir); cbn [negb].
  - destruct (validate_links _ _ _ _) as [[s|] tr']; reflexivity.
  - now rewrite <- app_assoc.
Qed.

Lemma check_files_cases (docs_directory : str) (check_external : bool)
      (w : world) (tr : list event) :
  check_files docs_directory check_external w tr
  = for_each (markdown_files_of w docs_directory)
             (check_file docs_directory check_external) (0, []) w
             (tr ++ [Walk docs_directory;
                     Print (lit "Found "
                            ++ Str.of_nat (List.length
                                             (markdown_files_of w docs_directory))
                            ++ lit " markdown files to check")]).
Proof.
  cbv beta iota zeta
      delta [check_files find_markdown_files bind os_walk print emit ret].
  rewrite <- app_assoc. reflexivity.
Qed.

(** One turn of the loop over the files: the links of the file are counted,
    then checked one by one; a file that cannot be read ends the run. *)
Lemma check_file_cases (docs_directory : str) (check_external : bool)
      (file_path : str) (total_links : nat) (broken_links : list Broken)
      (w : world) (tr : list event) :
  check_file docs_directory check_external file_path
             (total_links, broken_links) w tr
  = let tr1 := tr ++ [Print (lit "Checking " ++ file_path ++ lit "...");
                      Open file_path] in
    match links_of w file_path with
    | Some links =>
        match for_each links
                       (check_link docs_directory check_external file_path)
                       broken_links w tr1 with
        | (Some broken_links', tr2) =>
            (Some (total_links + List.length links, broken_links'), tr2)
        | (None, tr2) => (None, tr2)
        end
    | None => (None, tr1)
    end.
Proof.
  cbv beta iota zeta
      delta [check_file extract_links links_of bind read_text print emit ret].
  rewrite <- app_assoc. cbn [app].
  destruct (FS.read w file_path) as [content|]; [| reflexivity].
  destruct (for_each _ _ _ _ _) as [[b|] tr2]; reflexivity.
Qed.

Lemma check_file_loop_no_links (docs_directory : str) (check_external : bool)
      (w : world) (files : list str) :
  (forall file, In file files -> links_of w file = Some []) ->
  forall total_links broken_links tr,
  exists tr',
    for_each files (check_file docs_directory check_external)
             (total_links, broken_links) w tr
    = (Some (total_links, broken_links), tr').
Proof.
  induction files as [|file files IH]; intros Hnone total_links broken_links tr.
  - exists tr. reflexivity.
  - cbn [for_each]. unfold bind. rewrite check_file_cases.
    rewrite (Hnone file (or_introl eq_refl)). cbn.
    rewrite Nat.add_0_r. apply IH.
    intros f Hf. apply Hnone. now right.
Qed.

(** C10. When the path given as the documentation directory is a regular
    file, [main] prints no error: it walks the path, finds no markdown file,
    reports no link and no broken link, and returns 0. *)
Theorem root_regular_file_exit_0 (docs_dir : str) (skip_external : bool)
        (content : option str) (w : world) (tr : list event) :
  FS.lookup w docs_dir = Some (File content) ->
  find_markdown_files docs_dir w (tr ++ [PathExists docs_dir])
  = (Some [], tr ++ [PathExists docs_dir] ++ [Walk docs_dir])
  /\ main docs_dir skip_external w tr
     = (Some 0%Z,
        tr ++ [PathExists docs_dir;
               Walk docs_dir;
               Print (lit "Found 0 markdown files to check");
               Print (newline :: lit "=== Link Validation Results ===");
               Print (lit "Total links checked: 0");
               Print (lit "Broken links found: 0")]).
Proof.
  intros Hfile.
  assert (Hnone : markdown_files_of w docs_dir = []).
  { unfold markdown_files_of, FS.walk. rewrite Hfile. reflexivity. }
  split.
  - cbv beta iota zeta delta [find_markdown_files bind os_walk ret].
    fold (markdown_files_of w docs_dir). rewrite Hnone.
    now rewrite <- app_assoc.
  - rewrite main_cases. unfold FS.exists_. rewrite Hfile.
    rewrite validate_links_cases, check_files_cases, Hnone.
    cbn [for_each ret List.length]. rewrite report_no_links.
    repeat rewrite <- app_assoc. reflexivity.
Qed.

Lemma root_regular_file_exit_0_witness :
  fst (main (lit "/docs/a.md") false docs_world []) = Some 0%Z.
Proof.
  rewrite (proj2 (root_regular_file_exit_0 (lit "/docs/a.md") false (Some a_md)
                                           docs_world [] eq_refl)).
  reflexivity.
Defined.

(** C9, as stated, fails: [/docs/a.md] is a regular file and no directory,
    no directory exists at the path given, and yet [main] returns 0 on it;
    [main] tests the path with [os.path.exists], which is true of a file. *)
Lemma exit_0_without_directory :
  FS.isdir docs_world (lit "/docs/a.md") = false
  /\ FS.exists_ docs_world (lit "/docs/a.md") = true
  /\ fst (main (lit "/docs/a.md") false docs_world []) = Some 0%Z
  /\ ~ exit_0_iff_directory docs_world (lit "/docs/a.md") false [].
Proof.
  split; [reflexivity |]. split; [reflexivity |]. split; [reflexivity |].
  intros [Hexit _]. destruct (Hexit eq_refl) as [Hdir _]. discriminate Hdir.
Qed.

(** C9, amended. The run succeeds exactly when [broken_links] is empty when
    the loop over the files is over; [main] returns 0 exactly when the path
    given exists, as a directory or as a file of any other kind, and the
    loop ends with no broken link, and 1 exactly when the path does not
    exist or the loop ends with a broken link; and when no markdown file
    holds a link, the loop ends with [total_links] 0 and the run
    succeeds. *)
Theorem exit_status (docs_dir : str) (skip_external : bool) (w : world)
        (tr : list event) :
  let check_external := negb skip_external in
  let tr0 := tr ++ [PathExists docs_dir] in
  (forall tr1 total_links broken_links tr2,
      check_files docs_dir check_external w tr1
      = (Some (total_links, broken_links), tr2) ->
      exists success tr3,
        validate_links docs_dir check_external w tr1 = (Some success, tr3)
        /\ (success = true <-> broken_links = []))
  /\ (fst (main docs_dir skip_external w tr) = Some 0%Z
      <-> FS.exists_ w docs_dir = true
          /\ exists total_links tr1,
               check_files docs_dir check_external w tr0
               = (Some (total_links, []), tr1))
  /\ (fst (main docs_dir skip_external w tr) = Some 1%Z
      <-> FS.exists_ w docs_dir = false
          \/ exists total_links broken_links tr1,
               check_files docs_dir check_external w tr0
               = (Some (total_links, broken_links), tr1)
               /\ broken_links <> [])
  /\ ((forall file,
          In file (markdown_files_of w docs_dir) -> links_of w file = Some []) ->
      (forall tr1,
          (exists tr2,
              check_files docs_dir check_external w tr1 = (Some (0, []), tr2))
          /\ fst (validate_links docs_dir check_external w tr1) = Some true)
      /\ (FS.exists_ w docs_dir = true ->
          fst (main docs_dir skip_external w tr) = Some 0%Z)).
Proof.
  intros check_external tr0.
  assert (Hsuccess : forall tr1 total_links broken_links tr2,
             check_files docs_dir check_external w tr1
             = (Some (total_links, broken_links), tr2) ->
             exists tr3,
               validate_links docs_dir check_external w tr1
               = (Some (match broken_links with [] => true | _ => false end),
                  tr3)).
  { intros tr1 t b tr2 Hrun. rewrite validate_links_cases, Hrun.
    destruct (report_returns t b w tr2) as [tr3 Hrep].
    exists tr3. rewrite Hrep. now destruct b. }
  assert (Hmain : fst (main docs_dir skip_external w tr)
                  = if FS.exists_ w docs_dir then
                      match check_files docs_dir check_external w tr0 with
                      | (Some (_, []), _) => Some 0%Z
                      | (Some (_, _ :: _), _) => Some 1%Z
                      | (None, _) => None
                      end
                    else Some 1%Z).
  { rewrite main_cases. destruct (FS.exists_ w docs_dir); [| reflexivity].
    fold check_external tr0.
    destruct (check_files docs_dir check_external w tr0)
      as [[[t b]|] tr1] eqn:Hrun.
    - destruct (Hsuccess tr0 t b tr1 Hrun) as [tr2 ->]. now destruct b.
    - rewrite validate_links_cases, Hrun. reflexivity. }
  split; [| split; [| split]].
  - intros tr1 t b tr2 Hrun. destruct (Hsuccess tr1 t b tr2 Hrun) as [tr3 Hv].
    eexists. exists tr3. split; [exact Hv |].
    destruct b; split; intros; (reflexivity || discriminate).
  - rewrite Hmain. destruct (FS.exists_ w docs_dir).
    + destruct (check_files docs_dir check_external w tr0)
        as [[[t [|b bs]]|] tr1]; split.
      * intros _. split; [reflexivity |]. now exists t, tr1.
      * reflexivity.
      * discriminate.
      * intros [_ (t' & tr1' & [=])].
      * discriminate.
      * intros [_ (t' & tr1' & [=])].
    + split; [discriminate | intros [[=] _]].
  - rewrite Hmain. destruct (FS.exists_ w docs_dir).
    + destruct (check_files docs_dir check_external w tr0)
        as [[[t [|b bs]]|] tr1]; split.
      * discriminate.
      * intros [[=] | (t' & b' & tr1' & [= <- <- <-] & Hne)]. now elim Hne.
      * intros _. right. exists t, (b :: bs), tr1.
        split; [reflexivity | discriminate].
      * reflexivity.
      * discriminate.
      * intros [[=] | (t' & b' & tr1' & [=] & _)].
    + split; [intros _; now left | reflexivity].
  - intros Hnone.
    assert (Hrun : forall tr1, exists tr2,
               check_files docs_dir check_external w tr1 = (Some (0, []), tr2)).
    { intros tr1. rewrite check_files_cases.
      apply check_file_loop_no_links. exact Hnone. }
    split.
    + intros tr1. split; [apply Hrun |].
      destruct (Hrun tr1) as [tr2 Hrun1].
      destruct (Hsuccess tr1 0 [] tr2 Hrun1) as [tr3 ->]. reflexivity.
    + intros Hex. destruct (Hrun tr0) as [tr1 Hrun0].
      rewrite Hmain, Hex, Hrun0. reflexivity.
Qed.

Lemma exit_status_witness :
  fst (main (lit "/docs/guide") false docs_world []) = Some 0%Z.
Proof.
  apply (proj2 (proj2 (proj2
           (exit_status (lit "/docs/guide") false docs_world [])))).
  - intros file [<- | []]. reflexivity.
  - reflexivity.
Defined.

(** ** Skipped links *)

(** One turn of the loop over the links: [broken_links] is left as it is,
    or gains one entry, made from a check of this link that failed. *)
Lemma check_link_step (docs_directory : str) (check_external : bool)
      (file_path : str) (link : Link) (broken_links broken_links' : list Broken)
      (w : world) (tr tr' : list event) :
  check_link docs_directory check_external file_path link broken_links w tr
  = (Some broken_links', tr') ->
  broken_links' = broken_links
  \/ exists b tr1,
      broken_links' = broken_links ++ [b]
      /\ broken_file b = file_path
      /\ skipped (link_url link) = false
      /\ broken_url b = Str.strip (link_url link)
      /\ broken_text b = link_text link
      /\ (broken_type_ b = external
          /\ check_external = true
          /\ validate_external_link (broken_url b) w tr
             = (Some (false, broken_reason b), tr1)
          \/ broken_type_ b = local
             /\ validate_local_link (broken_url b) file_path docs_directory w tr
                = (Some (false, broken_reason b), tr1)).
Proof.
  unfold check_link, skipped.
  destruct (Str.strip (link_url link)) as [|c url] eqn:Hurl.
  { intros [= <- <-]. now left. }
  destruct (Str.startswith (c :: url) (lit "mailto:")) eqn:Hmailto.
  { intros [= <- <-]. now left. }
  destruct (Str.startswith (c :: url) (lit "javascript:")) eqn:Hjs.
  { intros [= <- <-]. now left. }
  destruct (Str.startswith (c :: url) (lit "http://")
            || Str.startswith (c :: url) (lit "https://")).
  - destruct check_external; [| intros [= <- <-]; now left].
    cbv beta iota zeta delta [bind time_sleep emit ret].
    destruct (validate_external_link (c :: url) w tr)
      as [[[is_valid reason]|] tr1] eqn:Hcheck; [| discriminate].
    destruct is_valid; cbn [negb]; intros [= <- <-]; [now left |].
    right. eexists. exists tr1. cbn.
    repeat split; try reflexivity. left. repeat split. exact Hcheck.
  - cbv beta iota zeta delta [bind ret].
    destruct (validate_local_link (c :: url) file_path docs_directory w tr)
      as [[[is_valid reason]|] tr1] eqn:Hcheck; [| discriminate].
    destruct is_valid; cbn [negb]; intros [= <- <-]; [now left |].
    right. eexists. exists tr1. cbn.
    repeat split; try reflexivity. right. repeat split. exact Hcheck.
Qed.

Lemma check_link_skipped (docs_directory : str) (check_external : bool)
      (file_path : str) (link : Link) (broken_links : list Broken)
      (w : world) (tr : list event) :
  skipped (link_url link) = true ->
  check_link docs_directory check_external file_path link broken_links w tr
  = (Some broken_links, tr).
Proof.
  unfold check_link, skipped.
  destruct (Str.strip (link_url link)) as [|c url]; [reflexivity |].
  destruct (Str.startswith (c :: url) (lit "mailto:")); [reflexivity |].
  destruct (Str.startswith (c :: url) (lit "javascript:"));
    [reflexivity | discriminate].
Qed.

Lemma count_links_cons (w : world) (file : str) (files : list str) :
  count_links w (file :: files)
  = match links_of w file with
    | Some links => List.length links
    | None => 0
    end + count_links w files.
Proof. reflexivity. Qed.

(** The loop over the files: every file is read, every link of every file
    is counted, and the entries added to [broken_links] stand for checks
    that were made. *)
Lemma check_file_loop (docs_directory : str) (check_external : bool)
      (w : world) (files : list str) :
  (forall file, In file files -> In file (markdown_files_of w docs_directory)) ->
  forall total_links broken_links tr total_links' broken_links' tr',
    for_each files (check_file docs_directory check_external)
             (total_links, broken_links) w tr
    = (Some (total_links', broken_links'), tr') ->
    Forall (backed_by_check w docs_directory check_external) broken_links ->
    Forall (fun file => links_of w file <> None) files
    /\ total_links' = total_links + count_links w files
    /\ Forall (backed_by_check w docs_directory check_external) broken_links'.
Proof.
  induction files as [|file files IH];
    intros Hfiles total_links broken_links tr total_links' broken_links' tr'.
  - intros [= <- <- <-] Hbroken. unfold count_links. cbn.
    rewrite Nat.add_0_r. repeat split; [constructor | exact Hbroken].
  - cbn [for_each]. unfold bind. rewrite check_file_cases. cbv zeta.
    destruct (links_of w file) as [links|] eqn:Hlinks; [| discriminate].
    destruct (for_each links _ broken_links w _) as [[broken1|] tr1] eqn:Hloop;
      [| discriminate].
    intros Hrest Hbroken.
    assert (Hbroken1 :
              Forall (backed_by_check w docs_directory check_external) broken1).
    { revert Hloop.
      apply (for_each_invariant
               (Forall (backed_by_check w docs_directory check_external)));
        [| exact Hbroken].
      intros link acc t acc' t' Hlink Hacc Hstep.
      destruct (check_link_step _ _ _ _ _ _ _ _ _ Hstep)
        as [-> | (b & t1 & -> & Hfile & Hskip & Hurl & Htext & Hcheck)];
        [exact Hacc |].
      apply Forall_app. split; [exact Hacc |].
      constructor; [| constructor].
      split.
      - rewrite Hfile. apply Hfiles. now left.
      - exists links, link, t, t1. rewrite Hfile. tauto. }
    destruct (IH (fun f Hf => Hfiles f (or_intror Hf)) _ _ _ _ _ _
                 Hrest Hbroken1) as (Hread & Htotal & Hbroken').
    repeat split.
    + constructor; [congruence | exact Hread].
    + rewrite Htotal, count_links_cons, Hlinks. lia.
    + exact Hbroken'.
Qed.

(** C8. A link whose trimmed target is empty or starts with [mailto:] or
    [javascript:] is passed over: its turn of the loop makes no check (the
    trace is left as it was) and adds nothing to [broken_links].  When the
    loop over the files is over, [total_links] is the number of all the
    links extracted from the markdown files, the ones passed over among
    them, and every entry of [broken_links] stands for a check that was
    made, of a local or of an external target that is not passed over. *)
Theorem skipped_links_counted_not_broken
        (docs_directory : str) (check_external : bool) (w : world)
        (tr : list event) :
  (forall file_path link broken_links tr0,
      skipped (link_url link) = true ->
      check_link docs_directory check_external file_path link broken_links
                 w tr0
      = (Some broken_links, tr0))
  /\ (forall total_links broken_links tr',
         check_files docs_directory check_external w tr
         = (Some (total_links, broken_links), tr') ->
         Forall (fun file => links_of w file <> None)
                (markdown_files_of w docs_directory)
         /\ total_links
            = count_links w (markdown_files_of w docs_directory)
         /\ Forall (backed_by_check w docs_directory check_external)
                   broken_links).
Proof.
  split.
  - intros file_path link broken_links tr0. apply check_link_skipped.
  - intros total_links broken_links tr'. rewrite check_files_cases.
    intros Hrun.
    apply (check_file_loop docs_directory check_external w
                           (markdown_files_of w docs_directory)
                           (fun _ H => H) _ _ _ _ _ _ Hrun).
    constructor.
Qed.

Lemma skipped_links_counted_not_broken_witness :
  6 = count_links docs_world (markdown_files_of docs_world (lit "/docs"))
  /\ Forall (backed_by_check docs_world (lit "/docs") true)
            [ {| broken_file := lit "/docs/a.md";
                 broken_url := lit "nope.md";
                 broken_text := lit "n";
                 broken_reason := lit "File not found: /docs/nope.md";
                 broken_type_ := local |} ].
Proof.
  edestruct (proj2 (skipped_links_counted_not_broken
                      (lit "/docs") true docs_world []))
    as (_ & Htotal & Hbroken).
  - vm_compute. reflexivity.
  - split; [exact Htotal | exact Hbroken].
Defined.

(** ** Reference definitions *)

Lemma greedy_sound {R} (class : char -> bool) (s : str)
      (k : str -> option R) (x : R) :
  Re.greedy class s k = Some x ->
  exists taken rest,
    s = taken ++ rest /\ forallb class taken = true /\ k rest = Some x.
Proof.
  induction s as [|c s IH]; cbn [Re.greedy].
  - intros H. exists [], []. auto.
  - destruct (class c) eqn:Hc.
    + destruct (Re.greedy class s k) as [y|] eqn:Hg.
      * intros [= ->]. destruct (IH eq_refl) as (taken & rest & -> & Hall & Hk).
        exists (c :: taken), rest. cbn. rewrite Hc. auto.
      * intros H. exists [], (c :: s). auto.
    + intros H. exists [], (c :: s). auto.
Qed.

(** A greedy repetition that nothing makes give back takes the longest run
    there is. *)
Lemma greedy_longest {R} (class : char -> bool) (s : str) (f : str -> R) :
  Re.greedy class s (fun rest => Some (f rest))
  = Some (f (Str.dropwhile class s)).
Proof.
  induction s as [|c s IH]; cbn; [reflexivity |].
  destruct (class c); [now rewrite IH | reflexivity].
Qed.

Lemma dropwhile_split (class : char -> bool) (s : str) :
  exists taken,
    s = taken ++ Str.dropwhile class s
    /\ forallb class taken = true
    /\ (Str.dropwhile class s = []
        \/ exists c rest, Str.dropwhile class s = c :: rest /\ class c = false).
Proof.
  induction s as [|c s (taken & Hs & Hall & Hrest)]; cbn.
  - exists []. auto.
  - destruct (class c) eqn:Hc.
    + exists (c :: taken). cbn. rewrite Hc, <- Hs. auto.
    + exists []. repeat split. right. now exists c, s.
Qed.

Lemma firstn_matched (text rest : str) :
  firstn (List.length (text ++ rest) - List.length rest) (text ++ rest) = text.
Proof.
  rewrite length_app, Nat.add_sub.
  rewrite firstn_app, Nat.sub_diag, firstn_all. cbn. apply app_nil_r.
Qed.

(** The matcher is sound: what it matches is a prefix of its input that the
    pattern stands for. *)
Lemma run_sound {R} (r : Re.regex) :
  forall (s : str) (groups : list str) (k : str -> list str -> option R) (x : R),
    Re.run r s groups k = Some x ->
    exists text rest groups',
      s = text ++ rest /\ Re.denotes r text groups'
      /\ k rest (groups ++ groups') = Some x.
Proof.
  induction r as [c | class | class | r1 IH1 r2 IH2 | r1 IH1];
    intros s groups k x; cbn [Re.run Re.denotes].
  - destruct s as [|y s]; [discriminate |].
    destruct (N.eqb_spec y c) as [-> |]; [| discriminate].
    intros H. exists [c], s, []. rewrite app_nil_r. auto.
  - intros H. apply greedy_sound in H.
    destruct H as (taken & rest & -> & Hall & Hk).
    exists taken, rest, []. rewrite app_nil_r. auto.
  - destruct s as [|y s]; [discriminate |].
    destruct (class y) eqn:Hy; [| discriminate].
    intros H. apply greedy_sound in H.
    destruct H as (taken & rest & -> & Hall & Hk).
    exists (y :: taken), rest, []. rewrite app_nil_r. cbn. rewrite Hy.
    repeat split; auto. discriminate.
  - intros H. apply IH1 in H.
    destruct H as (text1 & rest1 & groups1 & -> & H1 & H).
    apply IH2 in H.
    destruct H as (text2 & rest2 & groups2 & -> & H2 & H).
    exists (text1 ++ text2), rest2, (groups1 ++ groups2).
    rewrite <- app_assoc. split; [reflexivity |].
    split; [| now rewrite app_assoc].
    now exists text1, text2, groups1, groups2.
  - intros H. apply IH1 in H.
    destruct H as (text & rest & groups1 & -> & H1 & H).
    rewrite firstn_matched in H.
    exists text, rest, (groups1 ++ [text]).
    split; [reflexivity |]. split; [now exists groups1 |].
    now rewrite app_assoc.
Qed.

Lemma match_at_sound (r : Re.regex) (s rest : str) (groups : list str) :
  Re.match_at r s = Some (groups, rest) ->
  exists text, s = text ++ rest /\ Re.denotes r text groups.
Proof.
  unfold Re.match_at. intros H. apply run_sound in H.
  destruct H as (text & rest' & groups' & -> & Hd & [= <- <-]).
  now exists text.
Qed.

(** Every match of the scan is a match of the pattern at some place of the
    content, and its text is what the pattern matched there. *)
Lemma scan_sound (r : Re.regex) (content : str) :
  forall skip m,
    In m (Re.scan r skip content) ->
    exists pre rest,
      content = pre ++ fst m ++ rest
      /\ Re.match_at r (fst m ++ rest) = Some (snd m, rest).
Proof.
  induction content as [|c content IH]; intros skip m; cbn [Re.scan].
  - destruct skip; [| intros []].
    destruct (Re.match_at r []) as [[groups rest]|] eqn:Hm; [| intros []].
    intros [<- | []]. cbn [fst snd].
    destruct (match_at_sound _ _ _ _ Hm) as (text & Heq & _).
    symmetry in Heq. apply app_eq_nil in Heq. destruct Heq as [_ ->].
    exists [], []. auto.
  - destruct skip as [|n].
    + destruct (Re.match_at r (c :: content)) as [[groups rest]|] eqn:Hm.
      * intros [<- | Hin].
        -- cbn [fst snd].
           destruct (match_at_sound _ _ _ _ Hm) as (text & Heq & _).
           rewrite Heq, firstn_matched. exists [], rest.
           rewrite <- Heq. auto.
        -- destruct (IH _ _ Hin) as (pre & rest' & -> & Hm').
           exists (c :: pre), rest'. auto.
      * intros Hin. destruct (IH _ _ Hin) as (pre & rest' & -> & Hm').
        exists (c :: pre), rest'. auto.
    + intros Hin. destruct (IH _ _ Hin) as (pre & rest' & -> & Hm').
      exists (c :: pre), rest'. auto.
Qed.

Lemma run_cat {R} (r1 r2 : Re.regex) (s : str) (groups : list str)
      (k : str -> list str -> option R) :
  Re.run (r1 +++ r2) s groups k
  = Re.run r1 s groups (fun rest groups' => Re.run r2 rest groups' k).
Proof. reflexivity. Qed.

(** A group of one greedy repetition that ends the pattern takes the longest
    run there is: what follows it is nothing, or starts with a character
    outside the class. *)
Lemma run_last_group (class : char -> bool) (s rest : str)
      (groups0 groups : list str) :
  Re.run (Re.Group (Re.Plus class)) s groups0
         (fun rest groups => Some (groups, rest))
  = Some (groups, rest) ->
  exists raw,
    s = raw ++ rest /\ raw <> [] /\ forallb class raw = true
    /\ groups = groups0 ++ [raw]
    /\ (rest = [] \/ exists c rest', rest = c :: rest' /\ class c = false).
Proof.
  cbn [Re.run]. destruct s as [|y s]; [discriminate |].
  destruct (class y) eqn:Hy; [| discriminate].
  rewrite (greedy_longest class s
             (fun rest =>
                (groups0 ++ [firstn (List.length (y :: s) - List.length rest)
                                    (y :: s)], rest))).
  destruct (dropwhile_split class s) as (taken & Hs & Hall & Hrest).
  set (d := Str.dropwhile class s) in *. clearbody d. subst s.
  change (y :: taken ++ d) with ((y :: taken) ++ d).
  rewrite firstn_matched. intros [= <- <-].
  exists (y :: taken). cbn [forallb]. rewrite Hy.
  repeat split; auto. discriminate.
Qed.

(** The matches of the pattern of the reference definitions. *)
Lemma ref_link_match (s rest : str) (groups : list str) :
  Re.match_at ref_link_re s = Some (groups, rest) ->
  exists label ws raw,
    s = chr "[" :: label ++ lit "]:" ++ ws ++ raw ++ rest
    /\ label <> [] /\ forallb (is_not "]") label = true
    /\ forallb Str.isspace ws = true
    /\ raw <> [] /\ forallb dot raw = true
    /\ (rest = [] \/ exists rest', rest = newline :: rest')
    /\ groups = [label; raw].
Proof.
  unfold Re.match_at, ref_link_re. intros H.
  rewrite run_cat in H. apply run_sound in H.
  destruct H as (t1 & r1 & g1 & -> & [-> ->] & H).
  rewrite run_cat in H. apply run_sound in H.
  destruct H as (label & r2 & g2 & -> & (g2' & -> & Hne & Hlabel & ->) & H).
  rewrite run_cat in H. apply run_sound in H.
  destruct H as (t3 & r3 & g3 & -> & [-> ->] & H).
  rewrite run_cat in H. apply run_sound in H.
  destruct H as (t4 & r4 & g4 & -> & [-> ->] & H).
  rewrite run_cat in H. apply run_sound in H.
  destruct H as (ws & r5 & g5 & -> & [Hws ->] & H).
  apply run_last_group in H.
  destruct H as (raw & -> & Hraw & Hdot & -> & Hrest).
  exists label, ws, raw. cbn.
  repeat split; auto.
  destruct Hrest as [-> | (c & rest' & -> & Hc)]; [now left | right].
  exists rest'. unfold dot in Hc. apply negb_false_iff in Hc.
  apply N.eqb_eq in Hc. now subst c.
Qed.

(** C3, as stated, fails: in [[a]:] followed by a newline and [foo], the
    pattern matches from the bracket to [foo], across the newline, and the
    link extracted has the target [foo] of the next line. *)
Lemma ref_target_on_next_line :
  ref_links (lit "[a]:" ++ newline :: lit "foo")
  = [ {| link_text := lit "a"; link_url := lit "foo"; link_line := None;
         link_type_ := reference |} ]
  /\ ~ target_on_line_of_match (lit "[a]:" ++ newline :: lit "foo").
Proof.
  split; [reflexivity |].
  intros H.
  specialize (H (lit "[a]:" ++ newline :: lit "foo", [lit "a"; lit "foo"])
                (or_introl eq_refl)).
  discriminate H.
Qed.

(** C3, amended. Every link of the reference pass comes from a place of the
    content that reads [[label]:], then whitespace (newlines among it), then
    a text [raw]: the label is not empty and holds no [[]]]; [raw] is not
    empty, holds no newline and runs to the end of its line; the link has
    the label for text and [raw], trimmed, for target. *)
Theorem ref_link_from_definition (content : str) (link : Link) :
  In link (ref_links content) ->
  exists pre label ws raw post,
    content = pre ++ chr "[" :: label ++ lit "]:" ++ ws ++ raw ++ post
    /\ label <> [] /\ forallb (is_not "]") label = true
    /\ forallb Str.isspace ws = true
    /\ raw <> [] /\ forallb dot raw = true
    /\ (post = [] \/ exists post', post = newline :: post')
    /\ link = {| link_text := label; link_url := Str.strip raw;
                 link_line := None; link_type_ := reference |}.
Proof.
  unfold ref_links, Re.findall, Re.finditer.
  rewrite map_map. intros Hin. apply in_map_iff in Hin.
  destruct Hin as (m & <- & Hm).
  apply scan_sound in Hm. destruct Hm as (pre & rest & -> & Hm).
  apply ref_link_match in Hm.
  destruct Hm as (label & ws & raw & Htext & Hne & Hlabel & Hws & Hraw & Hdot
                  & Hrest & Hgroups).
  exists pre, label, ws, raw, rest. rewrite Htext, Hgroups.
  repeat split; auto.
Qed.

Lemma ref_link_from_definition_witness :
  exists pre label ws raw post,
    lit "see [a]: http://x.y  " ++ newline :: lit "[b]:  "
    = pre ++ chr "[" :: label ++ lit "]:" ++ ws ++ raw ++ post
    /\ label <> [] /\ forallb (is_not "]") label = true
    /\ forallb Str.isspace ws = true
    /\ raw <> [] /\ forallb dot raw = true
    /\ (post = [] \/ exists post', post = newline :: post')
    /\ {| link_text := lit "a"; link_url := lit "http://x.y";
          link_line := None; link_type_ := reference |}
       = {| link_text := label; link_url := Str.strip raw;
            link_line := None; link_type_ := reference |}.
Proof.
  apply (ref_link_from_definition
           (lit "see [a]: http://x.y  " ++ newline :: lit "[b]:  ")).
  left. reflexivity.
Defined.

(** * Further properties of the validator *)

(** ** The scan for markdown files *)

Lemma startswith_app (s t prefix : str) :
  Str.startswith s prefix = true -> Str.startswith (s ++ t) prefix = true.
Proof.
  revert s. induction prefix as [|p prefix IH]; intros s.
  - intros _. now destruct (s ++ t).
  - destruct s as [|c s]; cbn; [discriminate |].
    intros H. apply andb_true_iff in H. destruct H as [-> H]. now apply IH.
Qed.

Lemma endswith_app (s t suffix : str) :
  Str.endswith t suffix = true -> Str.endswith (s ++ t) suffix = true.
Proof.
  unfold Str.endswith. rewrite rev_app_distr. apply startswith_app.
Qed.

Lemma join_endswith (a b suffix : str) :
  Str.endswith b suffix = true ->
  Str.endswith (posixpath.join a b) suffix = true.
Proof.
  intros H. unfold posixpath.join.
  destruct (Str.startswith b [posixpath.sep]); [exact H |].
  destruct (_ || _).
  - now apply endswith_app.
  - rewrite app_assoc. now apply endswith_app.
Qed.

(** [find_markdown_files] always returns, after one walk of the directory;
    each path it returns is a walked directory joined with one of the names
    of its entries that are not directories, a name that ends in [.md], and
    so does the path; when the directory does not exist, no path is
    returned. *)
Theorem find_markdown_files_md (directory : str) (w : world) (tr : list event) :
  find_markdown_files directory w tr
  = (Some (markdown_files_of w directory), tr ++ [Walk directory])
  /\ (forall path,
         In path (markdown_files_of w directory) ->
         Str.endswith path (lit ".md") = true
         /\ exists root dirs files file,
             In (root, dirs, files) (FS.walk w directory)
             /\ In file files
             /\ Str.endswith file (lit ".md") = true
             /\ path = posixpath.join root file)
  /\ (FS.lookup w directory = None -> markdown_files_of w directory = []).
Proof.
  split; [reflexivity |]. split.
  - intros path Hin. unfold markdown_files_of in Hin.
    apply in_flat_map in Hin. destruct Hin as ([[root dirs] files] & Hwalk & Hin).
    apply in_map_iff in Hin. destruct Hin as (file & <- & Hfile).
    apply filter_In in Hfile. destruct Hfile as [Hfile Hmd].
    split; [now apply join_endswith |].
    now exists root, dirs, files, file.
  - intros Hnone. unfold markdown_files_of, FS.walk. now rewrite Hnone.
Qed.

Lemma find_markdown_files_md_witness :
  markdown_files_of docs_world (lit "/nowhere") = [].
Proof.
  apply (proj2 (proj2 (find_markdown_files_md (lit "/nowhere") docs_world []))).
  reflexivity.
Defined.

(** ** Inline links *)

(** Every link of the inline pass comes from a place of the content that
    reads [[text](url)]: the text holds no [[]]], the target is not empty and
    holds no [)], and the link carries both as they are written, the target
    untrimmed. *)
Theorem markdown_link_from_inline (content : str) (link : Link) :
  In link (markdown_links content) ->
  exists pre text url post,
    content = pre ++ chr "[" :: text ++ lit "](" ++ url ++ chr ")" :: post
    /\ forallb (is_not "]") text = true
    /\ url <> [] /\ forallb (is_not ")") url = true
    /\ link = {| link_text := text; link_url := url; link_line := None;
                 link_type_ := markdown |}.
Proof.
  unfold markdown_links, Re.findall, Re.finditer.
  rewrite map_map. intros Hin. apply in_map_iff in Hin.
  destruct Hin as (m & <- & Hm).
  apply scan_sound in Hm. destruct Hm as (pre & rest & -> & Hm).
  apply match_at_sound in Hm. destruct Hm as (matched & Heq & Hd).
  apply app_inv_tail in Heq. rewrite Heq. clear Heq.
  cbn [Re.denotes markdown_link_re] in Hd.
  destruct Hd as (t1 & t2 & g1 & g2 & -> & -> & [-> ->] & Hd).
  destruct Hd as (text & t3 & g3 & g4 & -> & -> & (g & -> & Htext & ->) & Hd).
  destruct Hd as (t4 & t5 & g5 & g6 & -> & -> & [-> ->] & Hd).
  destruct Hd as (t6 & t7 & g7 & g8 & -> & -> & [-> ->] & Hd).
  destruct Hd as (url & t8 & g9 & g10 & -> & ->
                  & (g' & -> & Hne & Hurl & ->) & [-> ->]).
  exists pre, text, url, rest. cbn.
  repeat rewrite <- app_assoc. cbn.
  repeat split; auto. now rewrite <- app_assoc.
Qed.

Lemma markdown_link_from_inline_witness :
  exists pre text url post,
    lit "see [the guide](guide/index.md), then" 
    = pre ++ chr "[" :: text ++ lit "](" ++ url ++ chr ")" :: post
    /\ forallb (is_not "]") text = true
    /\ url <> [] /\ forallb (is_not ")") url = true
    /\ {| link_text := lit "the guide"; link_url := lit "guide/index.md";
          link_line := None; link_type_ := markdown |}
       = {| link_text := text; link_url := url; link_line := None;
            link_type_ := markdown |}.
Proof.
  apply (markdown_link_from_inline (lit "see [the guide](guide/index.md), then")).
  left. reflexivity.
Defined.

(** ** What the two passes find *)

(** A greedy repetition takes a run of its class whole when what follows
    the run is outside the class and the rest of the pattern matches
    there. *)
Lemma greedy_exact {R} (class : char -> bool) (taken rest : str)
      (k : str -> option R) (x : R) :
  forallb class taken = true ->
  match rest with [] => true | c :: _ => negb (class c) end = true ->
  k rest = Some x ->
  Re.greedy class (taken ++ rest) k = Some x.
Proof.
  intros Htaken Hrest Hk. induction taken as [|c taken IH]; cbn.
  - destruct rest as [|c rest]; cbn; [exact Hk |].
    apply negb_true_iff in Hrest. now rewrite Hrest.
  - cbn in Htaken. apply andb_true_iff in Htaken. destruct Htaken as [-> Hall].
    now rewrite (IH Hall).
Qed.

Lemma scan_skip_matched (r : Re.regex) (text rest : str) :
  Re.scan r (List.length text) (text ++ rest) = Re.scan r 0 rest.
Proof. induction text as [|c text IH]; [reflexivity | exact IH]. Qed.

(** A match at the start of the content is the first match of the scan,
    and the scan goes on after it. *)
Lemma scan_match (r : Re.regex) (text rest : str) (groups : list str) :
  text <> [] ->
  Re.match_at r (text ++ rest) = Some (groups, rest) ->
  Re.scan r 0 (text ++ rest) = (text, groups) :: Re.scan r 0 rest.
Proof.
  destruct text as [|c text]; [congruence |]. intros _ Hm.
  cbn [app Re.scan]. cbn [app] in Hm. rewrite Hm.
  change (c :: text ++ rest) with ((c :: text) ++ rest).
  rewrite firstn_matched. f_equal.
  rewrite length_app, Nat.add_sub. cbn [List.length Nat.sub].
  rewrite Nat.sub_0_r. apply scan_skip_matched.
Qed.

(** Both patterns start with [[]: the scan passes over a text without
    one. *)
Lemma scan_skip_no_bracket (r : Re.regex) (pre s : str) :
  forallb (is_not "[") pre = true ->
  Re.scan (Re.Chr (chr "[") +++ r) 0 (pre ++ s)
  = Re.scan (Re.Chr (chr "[") +++ r) 0 s.
Proof.
  induction pre as [|c pre IH]; [reflexivity |].
  cbn [forallb]. intros H. apply andb_true_iff in H. destruct H as [Hc Hpre].
  cbn [app Re.scan]. unfold Re.match_at. cbn [Re.run].
  unfold is_not in Hc. apply negb_true_iff in Hc. rewrite Hc.
  now apply IH.
Qed.

Lemma scan_no_bracket (r : Re.regex) (content : str) :
  forallb (is_not "[") content = true ->
  Re.scan (Re.Chr (chr "[") +++ r) 0 content = [].
Proof.
  intros H. rewrite <- (app_nil_r content).
  now rewrite scan_skip_no_bracket.
Qed.

(** A file without any [[] holds no link: [extract_links] returns the empty
    list. *)
Theorem no_bracket_no_links (file_path content : str) (w : world)
        (tr : list event) :
  FS.read w file_path = Some content ->
  forallb (is_not "[") content = true ->
  extract_links file_path w tr = (Some [], tr ++ [Open file_path]).
Proof.
  intros Hread Hnone.
  cbv beta iota zeta delta [extract_links bind read_text ret].
  rewrite Hread.
  unfold markdown_links, ref_links, Re.findall, Re.finditer,
    markdown_link_re, ref_link_re.
  now rewrite !scan_no_bracket.
Qed.

Lemma no_bracket_no_links_witness :
  extract_links (lit "/docs/guide/index.md") docs_world []
  = (Some [], [Open (lit "/docs/guide/index.md")]).
Proof.
  apply (no_bracket_no_links (lit "/docs/guide/index.md") []); reflexivity.
Defined.

Lemma markdown_link_match (text url post : str) :
  forallb (is_not "]") text = true ->
  url <> [] ->
  forallb (is_not ")") url = true ->
  Re.match_at markdown_link_re
              ((chr "[" :: text ++ lit "](" ++ url ++ [chr ")"]) ++ post)
  = Some ([text; url], post).
Proof.
  intros Htext Hne Hurl.
  destruct url as [|u url]; [congruence |].
  cbn [forallb] in Hurl. apply andb_true_iff in Hurl. destruct Hurl as [Hu Hurl].
  unfold Re.match_at, markdown_link_re.
  cbn [Re.run app]. rewrite N.eqb_refl.
  rewrite <- app_assoc.
  apply greedy_exact; [exact Htext | reflexivity |].
  cbn [app lit list_ascii_of_string map]. rewrite !N.eqb_refl, Hu.
  rewrite <- app_assoc.
  apply greedy_exact; [exact Hurl | reflexivity |].
  cbn [app]. rewrite N.eqb_refl.
  rewrite firstn_matched.
  change (u :: url ++ chr ")" :: post) with ((u :: url) ++ chr ")" :: post).
  now rewrite firstn_matched.
Qed.

(** The first inline link of a content, when no [[] comes before it, is the
    first link the inline pass returns, with the text and the target as
    they are written; the pass goes on after the closing [)]. *)
Theorem first_inline_link_found (pre text url post : str) :
  forallb (is_not "[") pre = true ->
  forallb (is_not "]") text = true ->
  url <> [] ->
  forallb (is_not ")") url = true ->
  markdown_links (pre ++ chr "[" :: text ++ lit "](" ++ url ++ chr ")" :: post)
  = {| link_text := text; link_url := url; link_line := None;
       link_type_ := markdown |} :: markdown_links post.
Proof.
  intros Hpre Htext Hne Hurl.
  unfold markdown_links, Re.findall, Re.finditer.
  unfold markdown_link_re at 1. rewrite scan_skip_no_bracket by exact Hpre.
  fold markdown_link_re.
  replace (chr "[" :: text ++ lit "](" ++ url ++ chr ")" :: post)
    with ((chr "[" :: text ++ lit "](" ++ url ++ [chr ")"]) ++ post)
    by (cbn; rewrite <- !app_assoc; cbn; now rewrite <- app_assoc).
  rewrite (scan_match _ _ _ [text; url]);
    [reflexivity | discriminate | now apply markdown_link_match].
Qed.

Lemma first_inline_link_found_witness :
  markdown_links (lit "see [the guide](guide/index.md), then [b](c)")
  = {| link_text := lit "the guide"; link_url := lit "guide/index.md";
       link_line := None; link_type_ := markdown |}
      :: markdown_links (lit ", then [b](c)").
Proof.
  apply (first_inline_link_found (lit "see ") (lit "the guide")
                                 (lit "guide/index.md") (lit ", then [b](c)"));
    (reflexivity || discriminate).
Defined.

Lemma ref_link_match_found (label ws raw post : str) :
  label <> [] ->
  forallb (is_not "]") label = true ->
  forallb Str.isspace ws = true ->
  match raw with [] => false | c :: _ => negb (Str.isspace c) end = true ->
  forallb dot raw = true ->
  post = [] \/ (exists post', post = newline :: post') ->
  Re.match_at ref_link_re ((chr "[" :: label ++ lit "]:" ++ ws ++ raw) ++ post)
  = Some ([label; raw], post).
Proof.
  intros Hne Hlabel Hws Hfirst Hraw Hpost.
  destruct label as [|l label]; [congruence |].
  destruct raw as [|c raw]; [discriminate |].
  cbn [forallb] in Hlabel, Hraw.
  apply andb_true_iff in Hlabel. destruct Hlabel as [Hl Hlabel].
  apply andb_true_iff in Hraw. destruct Hraw as [Hc Hraw].
  unfold Re.match_at, ref_link_re.
  cbn [Re.run app]. rewrite N.eqb_refl, Hl.
  rewrite <- app_assoc.
  apply greedy_exact; [exact Hlabel | reflexivity |].
  cbn [app lit list_ascii_of_string map]. rewrite !N.eqb_refl.
  rewrite <- app_assoc.
  apply greedy_exact; [exact Hws | exact Hfirst |].
  cbn [app]. rewrite Hc.
  rewrite (greedy_exact dot raw post _ 
             ([l :: label; c :: raw], post) Hraw).
  - reflexivity.
  - destruct Hpost as [-> | [post' ->]]; reflexivity.
  - change (l :: label ++ N_of_ascii "]" :: N_of_ascii ":" :: ws ++ c :: raw ++ post)
      with ((l :: label)
              ++ N_of_ascii "]" :: N_of_ascii ":" :: ws ++ c :: raw ++ post).
    rewrite firstn_matched.
    change (c :: raw ++ post) with ((c :: raw) ++ post).
    now rewrite firstn_matched.
Qed.

(** The first reference definition of a content, when no [[] comes before
    it: a label without [[]]], a colon, whitespace, then a text that starts
    with a character that is no whitespace and runs to the end of its line.
    It is the first link the reference pass returns, with the label for
    text and the text, trimmed, for target; the pass goes on at the end of
    the line. *)
Theorem first_ref_link_found (pre label ws raw post : str) :
  forallb (is_not "[") pre = true ->
  label <> [] ->
  forallb (is_not "]") label = true ->
  forallb Str.isspace ws = true ->
  match raw with [] => false | c :: _ => negb (Str.isspace c) end = true ->
  forallb dot raw = true ->
  post = [] \/ (exists post', post = newline :: post') ->
  ref_links (pre ++ chr "[" :: label ++ lit "]:" ++ ws ++ raw ++ post)
  = {| link_text := label; link_url := Str.strip raw; link_line := None;
       link_type_ := reference |} :: ref_links post.
Proof.
  intros Hpre Hne Hlabel Hws Hfirst Hraw Hpost.
  unfold ref_links, Re.findall, Re.finditer.
  unfold ref_link_re at 1. rewrite scan_skip_no_bracket by exact Hpre.
  fold ref_link_re.
  replace (chr "[" :: label ++ lit "]:" ++ ws ++ raw ++ post)
    with ((chr "[" :: label ++ lit "]:" ++ ws ++ raw) ++ post)
    by (cbn; rewrite <- !app_assoc; cbn; now rewrite <- !app_assoc).
  rewrite (scan_match _ _ _ [label; raw]);
    [reflexivity | discriminate | now apply ref_link_match_found].
Qed.

Lemma first_ref_link_found_witness :
  ref_links (lit "[home]:  https://example.com/  " ++ newline :: lit "[b]: c")
  = {| link_text := lit "home"; link_url := lit "https://example.com/";
       link_line := None; link_type_ := reference |}
      :: ref_links (newline :: lit "[b]: c").
Proof.
  apply (first_ref_link_found [] (lit "home") (lit "  ")
                              (lit "https://example.com/  ")
                              (newline :: lit "[b]: c"));
    try reflexivity; try discriminate.
  right. now exists (lit "[b]: c").
Defined.

(** ** Local links, further *)

(** A local link is valid exactly when it is only a fragment or the path it
    resolves to exists; an invalid one has the reason "File not found: "
    followed by that path, after one call of [os.path.exists] and one of
    [os.path.isdir]. *)
Theorem local_link_valid_iff (link_url base_path docs_root : str) (w : world)
        (tr : list event) :
  exists is_valid reason tr',
    validate_local_link link_url base_path docs_root w tr
    = (Some (is_valid, reason), tr')
    /\ (is_valid = true
        <-> before_fragment link_url = []
            \/ exists full_path,
                resolved_path (getcwd w) link_url base_path docs_root
                = Some full_path
                /\ FS.exists_ w full_path = true)
    /\ (is_valid = false ->
        exists full_path,
          resolved_path (getcwd w) link_url base_path docs_root = Some full_path
          /\ reason = lit "File not found: " ++ full_path
          /\ tr' = tr ++ [PathExists full_path; PathIsdir full_path]).
Proof.
  destruct (resolved_path (getcwd w) link_url base_path docs_root)
    as [full_path|] eqn:Hres.
  - rewrite (validate_local_link_resolved _ _ _ _ _ _ Hres).
    assert (Hclean : before_fragment link_url <> []).
    { unfold resolved_path in Hres.
      destruct (before_fragment link_url); [discriminate | discriminate]. }
    destruct (FS.exists_ w full_path) eqn:Hex;
      do 3 eexists; (split; [reflexivity |]); split.
    + split; [| reflexivity]. intros _. right. now exists full_path.
    + discriminate.
    + split; [discriminate |].
      intros [Hfrag | (p & [= <-] & Hp)]; congruence.
    + intros _. now exists full_path.
  - rewrite (validate_local_link_fragment _ _ _ _ _ Hres).
    do 3 eexists. split; [reflexivity |]. split.
    + split; [| reflexivity]. intros _. left.
      unfold resolved_path in Hres.
      now destruct (before_fragment link_url).
    + discriminate.
Qed.

Lemma split_hd_app (c : char) (a b : str) :
  forallb (fun x => negb (N.eqb x c)) a = true ->
  hd [] (Str.split c (a ++ c :: b)) = a.
Proof.
  induction a as [|x a IH]; cbn [app Str.split forallb].
  - now rewrite N.eqb_refl.
  - intros H. apply andb_true_iff in H. destruct H as [Hx Ha].
    apply negb_true_iff in Hx. rewrite Hx.
    specialize (IH Ha).
    destruct (Str.split c (a ++ c :: b)) as [|piece pieces]; cbn in *;
      now subst.
Qed.

Lemma split_hd_whole (c : char) (a : str) :
  forallb (fun x => negb (N.eqb x c)) a = true ->
  hd [] (Str.split c a) = a.
Proof.
  induction a as [|x a IH]; cbn [Str.split forallb]; [reflexivity |].
  intros H. apply andb_true_iff in H. destruct H as [Hx Ha].
  apply negb_true_iff in Hx. rewrite Hx.
  specialize (IH Ha).
  destruct (Str.split c a) as [|piece pieces]; cbn in *; now subst.
Qed.

(** The fragment of a local target plays no part: a target followed by [#]
    and any fragment is validated as the target alone is, with the same
    outcome, reason and calls. *)
Theorem fragment_ignored (target fragment base_path docs_root : str)
        (w : world) (tr : list event) :
  forallb (is_not "#") target = true ->
  validate_local_link (target ++ chr "#" :: fragment) base_path docs_root w tr
  = validate_local_link target base_path docs_root w tr.
Proof.
  intros H. unfold validate_local_link.
  rewrite (split_hd_app (chr "#") target fragment H).
  now rewrite (split_hd_whole (chr "#") target H).
Qed.

Lemma fragment_ignored_witness :
  validate_local_link (lit "api/b.md" ++ chr "#" :: lit "no-such-heading")
                      (lit "/docs/a.md") (lit "/docs") docs_world []
  = validate_local_link (lit "api/b.md") (lit "/docs/a.md") (lit "/docs")
                        docs_world [].
Proof.
  apply (fragment_ignored (lit "api/b.md") (lit "no-such-heading")).
  reflexivity.
Defined.

Lemma startswith_nil (s : str) : Str.startswith s [] = true.
Proof. now destruct s. Qed.

Lemma normpath_isabs (path : str) :
  posixpath.isabs path = true ->
  posixpath.isabs (posixpath.normpath path) = true.
Proof.
  unfold posixpath.isabs, posixpath.normpath.
  destruct path as [|c path]; [discriminate |].
  intros H. rewrite H.
  destruct (_ && _); cbn [repeat app];
    cbn [Str.startswith]; now rewrite N.eqb_refl, ?startswith_nil.
Qed.

Lemma abspath_isabs (cwd path : str) :
  posixpath.isabs cwd = true ->
  posixpath.isabs (posixpath.abspath cwd path) = true.
Proof.
  intros Hcwd. unfold posixpath.abspath.
  destruct (posixpath.isabs path) eqn:Hpath; [now apply normpath_isabs |].
  apply normpath_isabs. unfold posixpath.join.
  unfold posixpath.isabs in Hpath. rewrite Hpath.
  unfold posixpath.isabs in *.
  destruct (_ || _); now apply startswith_app.
Qed.

(** When the working directory is an absolute path, as [os.getcwd] gives
    it, the reason of an invalid local link names an absolute path. *)
Theorem broken_local_reason_absolute
        (link_url base_path docs_root reason : str) (w : world)
        (tr tr' : list event) :
  posixpath.isabs (getcwd w) = true ->
  validate_local_link link_url base_path docs_root w tr
  = (Some (false, reason), tr') ->
  exists full_path,
    reason = lit "File not found: " ++ full_path
    /\ posixpath.isabs full_path = true
    /\ FS.exists_ w full_path = false.
Proof.
  intros Hcwd.
  destruct (resolved_path (getcwd w) link_url base_path docs_root)
    as [full_path|] eqn:Hres.
  - rewrite (validate_local_link_resolved _ _ _ _ _ _ Hres).
    destruct (FS.exists_ w full_path) eqn:Hex; intros [= <- <-].
    exists full_path. repeat split; [| exact Hex].
    unfold resolved_path in Hres.
    destruct (before_fragment link_url); [discriminate |].
    injection Hres as <-. now apply abspath_isabs.
  - rewrite (validate_local_link_fragment _ _ _ _ _ Hres). discriminate.
Qed.

Lemma broken_local_reason_absolute_witness :
  exists full_path,
    lit "File not found: /docs/nope.md" = lit "File not found: " ++ full_path
    /\ posixpath.isabs full_path = true
    /\ FS.exists_ docs_world full_path = false.
Proof.
  apply (broken_local_reason_absolute
           (lit "./nope.md#x") (lit "../../docs/a.md") (lit "../../docs")
           (lit "File not found: /docs/nope.md") docs_world []
           [PathExists (lit "/docs/nope.md"); PathIsdir (lit "/docs/nope.md")]);
    reflexivity.
Defined.

Lemma local_link_valid_iff_witness :
  exists is_valid reason tr',
    validate_local_link (lit "nope.md") (lit "/docs/a.md") (lit "/docs")
                        docs_world []
    = (Some (is_valid, reason), tr')
    /\ (is_valid = true
        <-> before_fragment (lit "nope.md") = []
            \/ exists full_path,
                resolved_path (getcwd docs_world) (lit "nope.md")
                              (lit "/docs/a.md") (lit "/docs")
                = Some full_path
                /\ FS.exists_ docs_world full_path = true)
    /\ (is_valid = false ->
        exists full_path,
          resolved_path (getcwd docs_world) (lit "nope.md") (lit "/docs/a.md")
                        (lit "/docs") = Some full_path
          /\ reason = lit "File not found: " ++ full_path
          /\ tr' = [] ++ [PathExists full_path; PathIsdir full_path]).
Proof.
  exact (local_link_valid_iff (lit "nope.md") (lit "/docs/a.md") (lit "/docs")
                              docs_world []).
Defined.

(** ** External links, further *)

(** [validate_external_link] ends on an exception exactly when its [HEAD]
    request, or the [GET] request that follows a [HEAD] answered with a
    status of 400 or above, raises an exception that is no
    [RequestException].  When it returns, the link is valid exactly when
    [HEAD] is answered with a status below 400, or with a status of 400 or
    above and then [GET] with a status below 400; when [HEAD] is answered
    below 400 the reason is "HTTP" and that status and no other request is
    made; and an exception raised by the [GET] request gives the reason the
    same exception gives when [HEAD] raises it. *)
Theorem external_link_valid_iff (url : str) (w : world) (tr : list event) :
  let head := net w tr HEAD url in
  let get := net w (tr ++ [Request HEAD url]) GET url in
  (fst (validate_external_link url w tr) = None
   <-> head = Raise OtherException
       \/ exists h,
           head = Status h /\ (400 <= h)%Z /\ get = Raise OtherException)
  /\ forall is_valid reason tr',
      validate_external_link url w tr = (Some (is_valid, reason), tr') ->
      (is_valid = true
       <-> (exists h, head = Status h /\ (h < 400)%Z)
           \/ (exists h g,
                  head = Status h /\ (400 <= h)%Z
                  /\ get = Status g /\ (g < 400)%Z))
      /\ (forall h,
             head = Status h -> (h < 400)%Z ->
             reason = lit "HTTP " ++ Str.of_Z h
             /\ tr' = tr ++ [Request HEAD url])
      /\ (forall h e,
             head = Status h -> (400 <= h)%Z -> get = Raise e ->
             on_request_exception e = Some (is_valid, reason))
      /\ (forall e,
             head = Raise e -> on_request_exception e = Some (is_valid, reason)).
Proof.
  cbv zeta. rewrite validate_external_link_cases.
  assert (Hexc : forall e v r, on_request_exception e = Some (v, r) -> v = false).
  { intros [] v r; cbn; congruence. }
  assert (Hnone : forall e, on_request_exception e = None <-> e = OtherException).
  { intros []; cbn; split; congruence. }
  destruct (net w tr HEAD url) as [h | e] eqn:Hhead.
  - destruct (h <? 400)%Z eqn:Hh.
    + split.
      * cbn [fst]. split; [discriminate |].
        intros [[=] | (h' & [= <-] & Hge & _)]. lia.
      * intros is_valid reason tr' [= <- <- <-].
        split; [split | split; [| split]].
        -- intros _. left. exists h. split; [reflexivity | lia].
        -- reflexivity.
        -- intros h' [= <-] _. split; reflexivity.
        -- intros h' e [= <-] Hge. lia.
        -- intros e [=].
    + destruct (net w (tr ++ [Request HEAD url]) GET url) as [g | e] eqn:Hget.
      * split.
        -- cbn [fst]. split; [discriminate |].
           intros [[=] | (h' & _ & _ & [=])].
        -- intros is_valid reason tr'.
           destruct (g <? 400)%Z eqn:Hg; intros [= <- <- <-];
             (split; [split | split; [| split]]).
           ++ intros _. right. exists h, g. repeat split; lia.
           ++ reflexivity.
           ++ intros h' [= <-] Hlt. lia.
           ++ intros h' e _ _ [=].
           ++ intros e [=].
           ++ discriminate.
           ++ intros [(h' & [= <-] & Hlt)
                     | (h' & g' & [= <-] & _ & [= <-] & Hlt)]; lia.
           ++ intros h' [= <-] Hlt. lia.
           ++ intros h' e _ _ [=].
           ++ intros e [=].
      * split.
        -- cbn [fst]. rewrite Hnone. split.
           ++ intros ->. right. exists h. repeat split. lia.
           ++ intros [[=] | (h' & _ & _ & [= ->])]. reflexivity.
        -- intros is_valid reason tr' [= He <-].
           pose proof (Hexc _ _ _ He) as ->.
           split; [split | split; [| split]].
           ++ discriminate.
           ++ intros [(h' & [= <-] & Hlt) | (h' & g' & _ & _ & [=] & _)]. lia.
           ++ intros h' [= <-] Hlt. lia.
           ++ intros h' e' _ _ [= <-]. exact He.
           ++ intros e' [=].
  - split.
    + cbn [fst]. rewrite Hnone. split.
      * intros ->. now left.
      * intros [[= ->] | (h' & [=] & _)]. reflexivity.
    + intros is_valid reason tr' [= He <-].
      pose proof (Hexc _ _ _ He) as ->.
      split; [split | split; [| split]].
      * discriminate.
      * intros [(h' & [=] & _) | (h' & g' & [=] & _)].
      * intros h' [=].
      * intros h' e' [=].
      * intros e' [= <-]. exact He.
Qed.

Lemma external_link_valid_iff_witness :
  fst (validate_external_link
         (lit "http://a..b/")
         {| root := docs_tree; getcwd := lit "/home/u";
            net := fun _ _ _ => Raise OtherException |} [])
  = None.
Proof.
  apply (proj1 (external_link_valid_iff
                  (lit "http://a..b/")
                  {| root := docs_tree; getcwd := lit "/home/u";
                     net := fun _ _ _ => Raise OtherException |} [])).
  left. reflexivity.
Defined.

(** ** The run, further *)









Lemma report_prints (total_links : nat) (broken_links : list Broken)
      (w : world) (tr : list event) :
  report total_links broken_links w tr
  = (Some (Nat.eqb (List.length broken_links) 0),
     tr ++ map Print (report_lines total_links broken_links)).
Proof.
  unfold report, report_lines.
  assert (Hloop : forall (bs : list Broken) tr0,
             for_each bs
               (fun broken (_ : unit) =>
                  print (mark ++ lit " " ++ broken_file broken) ;;;
                  print (lit "   Link: " ++ broken_url broken) ;;;
                  print (lit "   Text: '" ++ broken_text broken ++ lit "'") ;;;
                  print (lit "   Error: " ++ broken_reason broken) ;;;
                  print (lit "   Type: " ++ type_name (broken_type_ broken)) ;;;
                  print [])
               tt w tr0
             = (Some tt,
                tr0 ++ map Print
                    (flat_map
                       (fun broken =>
                          [mark ++ lit " " ++ broken_file broken;
                           lit "   Link: " ++ broken_url broken;
                           lit "   Text: '" ++ broken_text broken ++ lit "'";
                           lit "   Error: " ++ broken_reason broken;
                           lit "   Type: " ++ type_name (broken_type_ broken);
                           []])
                       bs))).
  { induction bs as [|b bs IH]; intros tr0.
    - cbn. now rewrite app_nil_r.
    - cbn [for_each flat_map].
      cbv beta iota zeta delta [bind print emit].
      rewrite IH. rewrite <- !app_assoc. reflexivity. }
  destruct broken_links as [|b bs].
  - cbv beta iota zeta delta [bind print emit ret].
    rewrite <- !app_assoc. reflexivity.
  - cbv beta iota zeta delta [bind print emit ret].
    cbv beta iota zeta delta [bind print emit] in Hloop.
    rewrite Hloop. rewrite <- !app_assoc. reflexivity.
Qed.








(** A markdown file that cannot be read leaves the run without an exit
    status: when the path given exists and one of the markdown files found
    cannot be read, [main] ends on an exception, whatever the other files
    hold and the network answers.  A run that does return returns 0 or
    1. *)
Theorem unreadable_file_no_exit_status (docs_dir : str) (skip_external : bool)
        (w : world) (tr : list event) :
  (forall file,
      FS.exists_ w docs_dir = true ->
      In file (markdown_files_of w docs_dir) ->
      links_of w file = None ->
      fst (main docs_dir skip_external w tr) = None)
  /\ (fst (main docs_dir skip_external w tr) = None
      \/ fst (main docs_dir skip_external w tr) = Some 0%Z
      \/ fst (main docs_dir skip_external w tr) = Some 1%Z).
Proof.
  rewrite main_cases. split.
  - intros file -> Hfile Hnone.
    rewrite validate_links_cases, check_files_cases.
    destruct (for_each (markdown_files_of w docs_dir) _ (0, []) w _)
      as [[[t b]|] tr1] eqn:Hrun; [| reflexivity].
    destruct (check_file_loop docs_dir (negb skip_external) w _ (fun _ H => H)
                              _ _ _ _ _ _ Hrun (Forall_nil _))
      as (Hread & _).
    rewrite Forall_forall in Hread. now elim (Hread file Hfile).
  - destruct (FS.exists_ w docs_dir); [| cbn; auto].
    rewrite validate_links_cases.
    destruct (check_files docs_dir (negb skip_external) w _)
      as [[[t b]|] tr1]; [| cbn; auto].
    rewrite report_prints. cbn [fst].
    destruct (Nat.eqb (List.length b) 0); auto.
Qed.

Lemma unreadable_file_no_exit_status_witness :
  fst (main (lit "/") false
            {| root := Dir [ (lit "x.md", File None) ]; getcwd := lit "/";
               net := head_rejecting_net |} [])
  = None.
Proof.
  apply (proj1 (unreadable_file_no_exit_status
                  (lit "/") false
                  {| root := Dir [ (lit "x.md", File None) ]; getcwd := lit "/";
                     net := head_rejecting_net |} [])
               (lit "/x.md")); [reflexivity | left |]; reflexivity.
Defined.

Lemma check_link_loop_length (docs_directory : str) (check_external : bool)
      (file_path : str) (w : world) (links : list Link) :
  forall broken_links tr broken_links' tr',
    for_each links (check_link docs_directory check_external file_path)
             broken_links w tr = (Some broken_links', tr') ->
    List.length broken_links'
    <= List.length broken_links + List.length links.
Proof.
  induction links as [|link links IH]; intros b tr b' tr'.
  - intros [= <- <-]. cbn. lia.
  - cbn [for_each]. unfold bind.
    destruct (check_link _ _ _ link b w tr) as [[b1|] tr1] eqn:Hstep;
      [| discriminate].
    intros Hrest. apply IH in Hrest.
    destruct (check_link_step _ _ _ _ _ _ _ _ _ Hstep)
      as [-> | (e & t1 & -> & _)].
    + cbn [List.length]. lia.
    + rewrite length_app in Hrest. cbn [List.length] in *. lia.
Qed.

(** When the loop over the files is over, there are no more broken links
    than links counted. *)
Theorem broken_at_most_total (docs_directory : str) (check_external : bool)
        (w : world) (tr tr' : list event) (total_links : nat)
        (broken_links : list Broken) :
  check_files docs_directory check_external w tr
  = (Some (total_links, broken_links), tr') ->
  List.length broken_links <= total_links.
Proof.
  rewrite check_files_cases.
  assert (Hloop : forall files t b tr0 t' b' tr1,
             for_each files (check_file docs_directory check_external)
                      (t, b) w tr0 = (Some (t', b'), tr1) ->
             List.length b' + t <= List.length b + t').
  { induction files as [|file files IH]; intros t b tr0 t' b' tr1.
    - intros [= <- <- <-]. lia.
    - cbn [for_each]. unfold bind. rewrite check_file_cases. cbv zeta.
      destruct (links_of w file) as [links|]; [| discriminate].
      destruct (for_each links _ b w _) as [[b1|] tr2] eqn:Hlinks;
        [| discriminate].
      intros Hrest. apply IH in Hrest.
      apply check_link_loop_length in Hlinks. lia. }
  intros Hrun. apply Hloop in Hrun. cbn [List.length] in Hrun. lia.
Qed.

Lemma broken_at_most_total_witness :
  List.length
    [ {| broken_file := lit "/docs/a.md";
         broken_url := lit "nope.md";
         broken_text := lit "n";
         broken_reason := lit "File not found: /docs/nope.md";
         broken_type_ := local |} ] <= 6.
Proof.
  eapply (broken_at_most_total (lit "/docs") true docs_world []).
  vm_compute. reflexivity.
Defined.

Ltac one_way added :=
  cbn; exists added; rewrite <- ?app_assoc;
  (split; [reflexivity |]);
  (split; [intros _; repeat constructor | discriminate]).

(** A link is checked in one way only: the turn of a link whose trimmed
    target starts with [http://] or [https://] makes no call to the file
    system, and the turn of any other link makes no request and does not
    sleep. *)
Theorem check_link_one_way (docs_directory : str) (check_external : bool)
        (file_path : str) (link : Link) (broken_links : list Broken)
        (w : world) (tr : list event) :
  exists added,
    snd (check_link docs_directory check_external file_path link broken_links
                    w tr) = tr ++ added
    /\ (is_external (link_url link) = true ->
        Forall (fun e => is_filesystem e = false) added)
    /\ (is_external (link_url link) = false ->
        Forall (fun e => is_network e = false) added).
Proof.
  unfold check_link, is_external.
  assert (Hsame : forall (b : list Broken) P Q,
             exists added, snd (ret b w tr) = tr ++ added
                           /\ (P -> Forall (fun e => is_filesystem e = false) added)
                           /\ (Q -> Forall (fun e => is_network e = false) added)).
  { intros b P Q. exists []. rewrite app_nil_r.
    repeat split; constructor. }
  destruct (Str.strip (link_url link)) as [|c url]; [apply Hsame |].
  destruct (Str.startswith (c :: url) (lit "mailto:")); [apply Hsame |].
  destruct (Str.startswith (c :: url) (lit "javascript:")); [apply Hsame |].
  destruct (_ || _).
  - destruct check_external; [| apply Hsame].
    cbv beta iota zeta delta [bind time_sleep emit ret].
    rewrite validate_external_link_cases.
    destruct (net w tr HEAD (c :: url)) as [h | e].
    + destruct (h <? 400)%Z.
      * one_way [Request HEAD (c :: url); Sleep].
      * destruct (net w (tr ++ [Request HEAD (c :: url)]) GET (c :: url))
          as [g | e].
        -- destruct (g <? 400)%Z;
             one_way [Request HEAD (c :: url); Request GET (c :: url); Sleep].
        -- destruct (on_request_exception e) as [[v r]|].
           ++ one_way [Request HEAD (c :: url); Request GET (c :: url); Sleep].
           ++ one_way [Request HEAD (c :: url); Request GET (c :: url)].
    + destruct (on_request_exception e) as [[v r]|].
      * one_way [Request HEAD (c :: url); Sleep].
      * one_way [Request HEAD (c :: url)].
  - cbv beta iota zeta delta [bind ret].
    destruct (resolved_path (getcwd w) (c :: url) file_path docs_directory)
      as [p|] eqn:Hres.
    + rewrite (validate_local_link_resolved _ _ _ _ _ _ Hres).
      destruct (FS.exists_ w p); cbn; eexists;
        (split; [reflexivity |]); (split; [discriminate |]);
        intros _; repeat constructor.
    + rewrite (validate_local_link_fragment _ _ _ _ _ Hres). cbn.
      exists []. rewrite app_nil_r.
      split; [reflexivity |]. split; [discriminate | constructor].
Qed.

Lemma check_link_one_way_witness :
  exists added,
    snd (check_link (lit "/docs") true (lit "/docs/a.md")
                    {| link_text := lit "x"; link_url := lit " https://e.com/ ";
                       link_line := None; link_type_ := markdown |}
                    [] docs_world []) = [] ++ added
    /\ Forall (fun e => is_filesystem e = false) added.
Proof.
  destruct (check_link_one_way
              (lit "/docs") true (lit "/docs/a.md")
              {| link_text := lit "x"; link_url := lit " https://e.com/ ";
                 link_line := None; link_type_ := markdown |}
              [] docs_world []) as (added & Hsnd & Hext & _).
  exists added. split; [exact Hsnd | apply Hext; reflexivity].
Defined.
